(** * check4duplicates: the duplicate scanner and its exit-status contract

    A shallow embedding of [src/check4duplicates/check4duplicates.py]
    (class [Check4Duplicates]) together with the properties its
    specification states about validation, scanning order, tagging and
    exit statuses.

    Layout:
    - the data of the program (tags, the parsed command line, the object's
      attributes) and the observable events of a run;
    - a small monad for Python's control flow ([sys.exit], uncaught
      exceptions) over the mutable object and the macOS tag store;
    - the operating system as an interface ([OS]) and the methods of
      [Check4Duplicates] written against it;
    - a concrete tree-shaped file system implementing the interface;
    - the theorems. *)

From Stdlib Require Import ZArith Lia Ascii String.
From stdpp Require Import base list strings gmap.

Local Open Scope Z_scope.

(** ** Data *)

(** [macos_tags.Color] and [macos_tags.Tag]. *)
Inductive Color := NONE | GRAY | GREEN | PURPLE | BLUE | YELLOW | RED | ORANGE.

Record Tag := mkTag { name : string; color : Color }.

#[global] Instance Color_eq_dec : EqDecision Color.
Proof. solve_decision. Defined.

#[global] Instance Tag_eq_dec : EqDecision Tag.
Proof. solve_decision. Defined.

(** The two tags the program builds (lines 121 and 127). *)
Definition Duplicate : Tag := mkTag "Duplicate" RED.
Definition Unique : Tag := mkTag "Unique" GREEN.

(** The namespace [argparse] returns for the parser of
    [make_cmd_line_parser].  [--directory] is declared with
    [action="append"] and no default, so its attribute is [None] when the
    option never occurs on the command line and the list of its values, in
    order, otherwise. *)
Record Namespace := mkNamespace {
  ns_directory : option (list string);
  ns_reference_file : string;
  ns_verbose : bool
}.

(** What [self.parser.parse_args()] does: it either leaves the process on
    its own ([--help], [--version], a usage error) or returns a namespace. *)
Inductive parse_result :=
| ParserExit (code : Z)
| Parsed (args : Namespace).

(** Python exceptions that can escape [run]. *)
Inductive exn :=
| TypeError
| OSError (path : string).

(** Observable actions of a run, in the order they happen. *)
Inductive event :=
| EParserExit
| EPrintHelp
| EPrint (line : string)
| EIsFile (path : string)
| EStat (path : string)
| ERemoveAll (file : string)
| EAdd (tag : Tag) (file : string)
| EIsDir (path : string)
| EScanDir (root : string)
| ECmp (f1 f2 : string).

#[global] Instance exn_eq_dec : EqDecision exn.
Proof. solve_decision. Defined.

#[global] Instance event_eq_dec : EqDecision event.
Proof. solve_decision. Defined.

(** The attributes of a [Check4Duplicates] object that [run] reads or
    writes, and the tag store of [macos_tags]: the tags of a file, found
    under the path the program hands to the library.  The program hands
    over one path only, that of the reference file; another spelling of
    the same file would be another key here. *)
Record state := mkState {
  directories : option (list string);
  reference_file : option string;
  ref_size : Z;
  verbose : bool;
  tags : gmap string (list Tag)
}.

(** [__init__] (lines 30-38), on a machine whose tag store is [store]. *)
Definition init (store : gmap string (list Tag)) : state :=
  mkState None None 0 false store.

Definition tags_of (s : state) (file : string) : list Tag :=
  default [] (tags s !! file).

(** ** Control flow

    A statement either completes with a value, leaves through [sys.exit],
    or raises an exception nobody catches.  It may change the state and it
    emits events. *)
Inductive result (A : Type) :=
| Ret (a : A)
| Exit (code : Z)
| Raise (e : exn).
Arguments Ret {A} a.
Arguments Exit {A} code.
Arguments Raise {A} e.

Definition M (A : Type) : Type := state -> result A * state * list event.

Definition ret {A} (a : A) : M A := fun s => (Ret a, s, []).

Definition bind {A B} (m : M A) (k : A -> M B) : M B := fun s =>
  match m s with
  | (Ret a, s1, t1) =>
      match k a s1 with
      | (r, s2, t2) => (r, s2, t1 ++ t2)
      end
  | (Exit c, s1, t1) => (Exit c, s1, t1)
  | (Raise e, s1, t1) => (Raise e, s1, t1)
  end.

Notation "'let*' x ':=' m 'in' k" := (bind m (fun x => k))
  (at level 10, x name, m at level 100, k at level 200).
Notation "m '>>' k" := (bind m (fun _ => k))
  (at level 62, right associativity).

Definition emit (e : event) : M unit := fun s => (Ret tt, s, [e]).
Definition get : M state := fun s => (Ret s, s, []).
Definition put (s' : state) : M unit := fun _ => (Ret tt, s', []).
Definition raise {A} (e : exn) : M A := fun s => (Raise e, s, []).

(** [sys.exit(code)] *)
Definition sys_exit {A} (code : Z) : M A := fun s => (Exit code, s, []).

(** [for x in xs: body(x)] *)
Fixpoint for_ {A} (xs : list A) (body : A -> M unit) : M unit :=
  match xs with
  | [] => ret tt
  | x :: xs' => body x >> for_ xs' body
  end.

(** The status the operating system sees: the argument of [sys.exit], 0
    when the interpreter falls off the end, 1 after a traceback. *)
Definition exit_status {A} (r : result A) : Z :=
  match r with
  | Ret _ => 0
  | Exit c => c
  | Raise _ => 1
  end.

(** ** Library calls *)

(** [posixpath.join(a, b)] *)
Definition startswith_sep (s : string) : bool :=
  match s with
  | String c _ => bool_decide (c = "/"%char)
  | EmptyString => false
  end.

Fixpoint endswith_sep (s : string) : bool :=
  match s with
  | EmptyString => false
  | String c EmptyString => bool_decide (c = "/"%char)
  | String _ s' => endswith_sep s'
  end.

Definition os_path_join (a b : string) : string :=
  if startswith_sep b then b
  else if bool_decide (a = "") || endswith_sep a then a +:+ b
  else a +:+ "/" +:+ b.

(** [print(...)] and [self.parser.print_help()] *)
Definition print (line : string) : M unit := emit (EPrint line).
Definition print_help : M unit := emit EPrintHelp.

(** [macos_tags.remove_all(file=...)]: the file keeps no tag. *)
Definition macos_tags_remove_all (file : string) : M unit :=
  let* s := get in
  emit (ERemoveAll file) >>
  put (mkState (directories s) (reference_file s) (ref_size s) (verbose s)
               (<[file := []]> (tags s))).

(** [macos_tags.add(tag, file=...)]: the tag is appended to the file's
    tags unless a tag of that name is already among them (tags of
    [macos_tags] are equal when their names are). *)
Definition add_tag (tag : Tag) (ts : list Tag) : list Tag :=
  if bool_decide (name tag ∈ map name ts) then ts else ts ++ [tag].

Definition macos_tags_add (tag : Tag) (file : string) : M unit :=
  let* s := get in
  emit (EAdd tag file) >>
  put (mkState (directories s) (reference_file s) (ref_size s) (verbose s)
               (<[file := add_tag tag (tags_of s file)]> (tags s))).

(** The operating system, as far as the program asks it questions.
    [stat_size] and [filecmp] answer [None] where the Python call raises
    [OSError]; [os.path.isfile] and [os.path.isdir] never raise; [walk] is
    the sequence of triples [os.walk] yields (it swallows listing errors). *)
Record OS := mkOS {
  isfile : string -> bool;
  isdir : string -> bool;
  stat_size : string -> option Z;
  walk : string -> list (string * list string * list string);
  filecmp : string -> string -> option bool
}.

Section Check4Duplicates.

Variable os : OS.

Definition os_path_isfile (path : string) : M bool :=
  emit (EIsFile path) >> ret (isfile os path).

Definition os_path_isdir (path : string) : M bool :=
  emit (EIsDir path) >> ret (isdir os path).

(** [os.stat(path).st_size] *)
Definition os_stat_st_size (path : string) : M Z :=
  emit (EStat path) >>
  match stat_size os path with
  | Some n => ret n
  | None => raise (OSError path)
  end.

(** [filecmp.cmp(f1, f2, shallow=False)] *)
Definition filecmp_cmp (f1 f2 : string) : M bool :=
  emit (ECmp f1 f2) >>
  match filecmp os f1 f2 with
  | Some b => ret b
  | None => raise (OSError f2)
  end.

(** Reading [self.reference_file] where a path is required: [None] is a
    [TypeError] in every call that receives it. *)
Definition self_reference_file : M string :=
  let* s := get in
  match reference_file s with
  | Some p => ret p
  | None => raise TypeError
  end.

(** Reading [self.directories] where a sequence is required ([len],
    [for ... in]): [None] has no length and is not iterable. *)
Definition self_directories : M (list string) :=
  let* s := get in
  match directories s with
  | Some ds => ret ds
  | None => raise TypeError
  end.

Definition set_ref_size (n : Z) : M unit :=
  let* s := get in
  put (mkState (directories s) (reference_file s) n (verbose s) (tags s)).

(** ** The methods of [Check4Duplicates] *)

(** [parse_args] (lines 77-82) *)
Definition parse_args (argv : parse_result) : M unit :=
  match argv with
  | ParserExit code => emit EParserExit >> sys_exit code
  | Parsed args =>
      let* s := get in
      put (mkState (ns_directory args) (Some (ns_reference_file args))
                   (ref_size s) (ns_verbose args) (tags s))
  end.

(** [validate_args] (lines 84-95) *)
Definition validate_args : M unit :=
  let* ds := self_directories in
  (if bool_decide (length ds = 0%nat)
   then print_help >> sys_exit 2
   else ret tt) >>
  let* reference := self_reference_file in
  let* is_file := os_path_isfile reference in
  (if negb is_file
   then print ("Reference file " +:+ reference +:+ " does not exist") >>
        sys_exit 2
   else ret tt) >>
  let* size := os_stat_st_size reference in
  set_ref_size size >>
  let* s := get in
  if ref_size s =? 0
  then print ("Reference file " +:+ reference +:+ " is empty") >> sys_exit 2
  else ret tt.

(** [mark_as_duplicate] (lines 97-102); [run] does not call it. *)
Definition mark_as_duplicate (file : string) : M unit :=
  macos_tags_add Duplicate file >> sys_exit 1.

(** Lines 118-125: what happens to one candidate [file]. *)
Definition check_file (file : string) : M unit :=
  let* file_size := os_stat_st_size file in
  let* s := get in
  if file_size =? ref_size s then
    let* reference := self_reference_file in
    let* same := filecmp_cmp reference file in
    if same then
      macos_tags_add Duplicate reference >>
      (if verbose s
       then print ("File " +:+ file +:+ " is identical to " +:+ reference)
       else ret tt) >>
      sys_exit 1
    else ret tt
  else ret tt.

(** The body of [for f in files] (lines 117-125). *)
Definition visit_file (root f : string) : M unit :=
  check_file (os_path_join root f).

(** The body of [for root, _, files in os.walk(directory)] (lines 116-125);
    [EScanDir] marks the moment the generator lists [root]. *)
Definition visit_triple (triple : string * list string * list string) : M unit :=
  let '(root, _, files) := triple in
  emit (EScanDir root) >>
  for_ files (visit_file root).

(** Lines 112-114: a search directory that is not a directory ends the run. *)
Definition check_directory (directory : string) : M unit :=
  let* is_dir := os_path_isdir directory in
  if negb is_dir then
    print ("Directory " +:+ directory +:+ " does not exist") >> sys_exit 1
  else ret tt.

(** The body of [for directory in self.directories] (lines 112-125). *)
Definition scan_directory (directory : string) : M unit :=
  check_directory directory >>
  for_ (walk os directory) visit_triple.

(** [run] (lines 104-129) *)
Definition run (argv : parse_result) : M unit :=
  parse_args argv >>
  validate_args >>
  let* reference := self_reference_file in
  macos_tags_remove_all reference >>
  let* size := os_stat_st_size reference in
  set_ref_size size >>
  let* ds := self_directories in
  for_ ds scan_directory >>
  let* reference := self_reference_file in
  macos_tags_add Unique reference >>
  sys_exit 0.

End Check4Duplicates.

(** ** A tree-shaped file system

    A concrete operating system for the interface above: a tree of
    directories whose leaves are regular files or dangling symbolic links
    (entries that can be listed but not stat'ed).  Paths are resolved from
    the root of the tree, which is also the working directory.  The tree
    has no symbolic link to a directory, no directory that cannot be
    listed and no file that cannot be opened; the statements made for
    every [os : OS] cover those, the tree serves the examples and the
    statements that speak of file content. *)
Module TreeFS.

#[global] Instance byte_eq_dec : EqDecision Byte.byte := Byte.byte_eq_dec.

Inductive node :=
| File (data : list Byte.byte)
| Dir (entries : list (string * node))
| Dangling.

(** [split s] cuts [s] at every "/". *)
Fixpoint split (s : string) : list string :=
  match s with
  | EmptyString => [EmptyString]
  | String c s' =>
      if bool_decide (c = "/"%char) then EmptyString :: split s'
      else match split s' with
           | h :: t => String c h :: t
           | [] => [String c EmptyString]
           end
  end.

(** The names a path is spelled with, reading past empty pieces and ".".
    This is about the spelling only; [resolve] below is what the operating
    system makes of a path. *)
Definition is_name (t : string) : bool :=
  negb (bool_decide (t = "")) && negb (bool_decide (t = ".")).

Definition components (p : string) : list string :=
  List.filter is_name (split p).

Fixpoint assoc (x : string) (entries : list (string * node)) : option node :=
  match entries with
  | [] => None
  | (n, child) :: rest => if bool_decide (n = x) then Some child else assoc x rest
  end.

(** Path resolution, piece by piece, from the node [n] whose ancestors
    are [up] (nearest first).  Every piece is looked up in a directory:
    after a regular file or a dangling link nothing resolves, not even an
    empty piece (a trailing separator) or ".".  ".." goes to the parent,
    and stays at the root. *)
Fixpoint lookup_path (up : list node) (n : node) (pieces : list string)
  : option node :=
  match pieces with
  | [] => Some n
  | x :: rest =>
      match n with
      | Dir entries =>
          if bool_decide (x = "") || bool_decide (x = ".") then
            lookup_path up n rest
          else if bool_decide (x = "..") then
            match up with
            | parent :: up' => lookup_path up' parent rest
            | [] => lookup_path [] n rest
            end
          else
            match assoc x entries with
            | Some child => lookup_path (n :: up) child rest
            | None => None
            end
      | _ => None
      end
  end.

(** The empty path names nothing. *)
Definition resolve (fs : node) (p : string) : option node :=
  if bool_decide (p = "") then None else lookup_path [] fs (split p).

Definition is_dir_node (n : node) : bool :=
  match n with Dir _ => true | _ => false end.

Definition dirnames (entries : list (string * node)) : list string :=
  map fst (List.filter (fun e => is_dir_node (snd e)) entries).

Definition nondirnames (entries : list (string * node)) : list string :=
  map fst (List.filter (fun e => negb (is_dir_node (snd e))) entries).

(** [os.walk(top)], top-down: the triple of a directory, then the walks of
    its sub-directories in listing order. *)
Fixpoint walk_node (top : string) (n : node)
  : list (string * list string * list string) :=
  match n with
  | Dir entries =>
      (top, dirnames entries, nondirnames entries) ::
      flat_map (fun e => walk_node (os_path_join top (fst e)) (snd e)) entries
  | _ => []
  end.

Section WithTree.

Variable fs : node.

Definition tree_isfile (p : string) : bool :=
  match resolve fs p with Some (File _) => true | _ => false end.

Definition tree_isdir (p : string) : bool :=
  match resolve fs p with Some (Dir _) => true | _ => false end.

(** A directory reports the size of one block; the program never asks. *)
Definition tree_stat_size (p : string) : option Z :=
  match resolve fs p with
  | Some (File data) => Some (Z.of_nat (length data))
  | Some (Dir _) => Some 4096
  | Some Dangling | None => None
  end.

Definition tree_walk (top : string) : list (string * list string * list string) :=
  match resolve fs top with
  | Some n => walk_node top n
  | None => []
  end.

(** [filecmp.cmp(f1, f2, shallow=False)]: both paths are stat'ed; anything
    but two regular files of one size and one content is not a match. *)
Definition tree_filecmp (f1 f2 : string) : option bool :=
  match resolve fs f1, resolve fs f2 with
  | Some Dangling, _ | _, Some Dangling | None, _ | _, None => None
  | Some (File d1), Some (File d2) => Some (bool_decide (d1 = d2))
  | _, _ => Some false
  end.

Definition tree_os : OS :=
  mkOS tree_isfile tree_isdir tree_stat_size tree_walk tree_filecmp.

End WithTree.

End TreeFS.

Import TreeFS.

(** ** Traversal order

    The three nested loops of [run] visit search directories, the
    directories [os.walk] lists under them, and the files of each listing.
    Laid out in a row, these are the steps of the scan in the order the
    program takes them. *)
Inductive step :=
| SDir (directory : string)
| SList (root : string)
| SFile (file : string).

(** What ended the scan: the [ScanOutcome] of the specification, and the
    exception that leaves the process without one. *)
Inductive verdict :=
| NoDuplicateFound
| DuplicateFound (candidate : string)
| DirectoryError (directory : string)
| Crashed (e : exn).

Section Traversal.

Variable os : OS.

Definition triple_steps (triple : string * list string * list string) : list step :=
  let '(root, _, files) := triple in
  SList root :: map (fun f => SFile (os_path_join root f)) files.

Definition directory_steps (directory : string) : list step :=
  SDir directory :: flat_map triple_steps (walk os directory).

Definition itinerary (ds : list string) : list step :=
  flat_map directory_steps ds.

(** The statement the program executes at a step. *)
Definition do_step (st : step) : M unit :=
  match st with
  | SDir directory => check_directory os directory
  | SList root => emit (EScanDir root)
  | SFile file => check_file os file
  end.

(** The scan of a validated reference file [reference] of size [size]. *)
Variable reference : string.
Variable size : Z.

(** [None]: the scan goes on to the next step. *)
Definition step_verdict (st : step) : option verdict :=
  match st with
  | SDir directory =>
      if isdir os directory then None else Some (DirectoryError directory)
  | SList _ => None
  | SFile file =>
      match stat_size os file with
      | None => Some (Crashed (OSError file))
      | Some n =>
          if n =? size then
            match filecmp os reference file with
            | None => Some (Crashed (OSError file))
            | Some true => Some (DuplicateFound file)
            | Some false => None
            end
          else None
      end
  end.

(** The questions a step asks the operating system. *)
Definition step_trace (st : step) : list event :=
  match st with
  | SDir directory => [EIsDir directory]
  | SList root => [EScanDir root]
  | SFile file =>
      EStat file ::
      match stat_size os file with
      | Some n => if n =? size then [ECmp reference file] else []
      | None => []
      end
  end.

Definition quiet (st : step) : bool :=
  match step_verdict st with None => true | Some _ => false end.

(** A step that neither ends the scan on a missing directory nor raises. *)
Definition harmless (st : step) : bool :=
  match step_verdict st with
  | None | Some (DuplicateFound _) => true
  | Some _ => false
  end.

(** The questions asked up to the first step that ends the scan, and what
    ended it. *)
Fixpoint scan (steps : list step) : list event * verdict :=
  match steps with
  | [] => ([], NoDuplicateFound)
  | st :: rest =>
      match step_verdict st with
      | None => let '(t, v) := scan rest in (step_trace st ++ t, v)
      | Some v => (step_trace st, v)
      end
  end.

End Traversal.

(** ** The shape of a run *)

Definition missing_message (reference : string) : string :=
  "Reference file " +:+ reference +:+ " does not exist".
Definition empty_message (reference : string) : string :=
  "Reference file " +:+ reference +:+ " is empty".
Definition directory_message (directory : string) : string :=
  "Directory " +:+ directory +:+ " does not exist".
Definition identical_message (file reference : string) : string :=
  "File " +:+ file +:+ " is identical to " +:+ reference.

(** Events of a validation that succeeds, then the clearing of the tags and
    the second [os.stat] (lines 89-109). *)
Definition validated_prefix (reference : string) : list event :=
  [EIsFile reference; EStat reference; ERemoveAll reference; EStat reference].

(** How a scan that ended with [v] finishes the run. *)
Definition conclude (ds : list string) (reference : string) (size : Z)
    (verbose : bool) (store : gmap string (list Tag)) (v : verdict)
  : result unit * state * list event :=
  let s tg := mkState (Some ds) (Some reference) size verbose tg in
  match v with
  | NoDuplicateFound =>
      (Exit 0, s (<[reference := [Unique]]> store), [EAdd Unique reference])
  | DuplicateFound file =>
      (Exit 1, s (<[reference := [Duplicate]]> store),
       EAdd Duplicate reference ::
       (if verbose then [EPrint (identical_message file reference)] else []))
  | DirectoryError directory =>
      (Exit 1, s (<[reference := []]> store),
       [EPrint (directory_message directory)])
  | Crashed e => (Raise e, s (<[reference := []]> store), [])
  end.

(** How the loops leave the state [s] when the scan ended with [v]: only a
    match changes anything. *)
Definition after_scan (reference : string) (s : state) (v : verdict)
  : result unit * state * list event :=
  match v with
  | NoDuplicateFound => (Ret tt, s, [])
  | DuplicateFound file =>
      (Exit 1,
       mkState (directories s) (reference_file s) (ref_size s) (verbose s)
               (<[reference := add_tag Duplicate (tags_of s reference)]> (tags s)),
       EAdd Duplicate reference ::
       (if verbose s then [EPrint (identical_message file reference)] else []))
  | DirectoryError directory =>
      (Exit 1, s, [EPrint (directory_message directory)])
  | Crashed e => (Raise e, s, [])
  end.

(** Which events change tags, and which look below a search directory. *)
Definition is_tagging (e : event) : bool :=
  match e with ERemoveAll _ | EAdd _ _ => true | _ => false end.

Definition touches_directory (e : event) : bool :=
  match e with EIsDir _ | EScanDir _ | ECmp _ _ => true | _ => false end.

(** The calls of [print] and [print_help] the program makes.  What
    [argparse] writes before it exits and the traceback the interpreter
    writes after an exception are not calls of the program. *)
Definition is_print (e : event) : bool :=
  match e with EPrint _ | EPrintHelp => true | _ => false end.

(** ** Example file systems *)

Definition bytes (s : string) : list Byte.byte := list_byte_of_string s.

(** The scenarios of the specification: [a.txt] holds "hello"; [dirA] has a
    copy below it, [dirB] only a file of the same size, [dirC] a dangling
    link before a copy; [home/a.txt] has no copy anywhere; nothing is
    called [missing]. *)
Definition fs_ex : node :=
  Dir [("a.txt", File (bytes "hello"));
       ("empty.txt", File []);
       ("dirA", Dir [("y.txt", File (bytes "world"));
                     ("sub", Dir [("x.txt", File (bytes "hello"))]);
                     ("z", File (bytes "zz"))]);
       ("dirB", Dir [("y.txt", File (bytes "world")); ("n", File (bytes "no"))]);
       ("dirC", Dir [("broken", Dangling); ("x.txt", File (bytes "hello"))]);
       ("home", Dir [("b.txt", File (bytes "other!"));
                     ("a.txt", File (bytes "hello!"))])].

(** ** Reading a run *)

Definition run_result (os : OS) (argv : parse_result)
    (store : gmap string (list Tag)) : result unit :=
  fst (fst (run os argv (init store))).

Definition run_state (os : OS) (argv : parse_result)
    (store : gmap string (list Tag)) : state :=
  snd (fst (run os argv (init store))).

Definition run_trace (os : OS) (argv : parse_result)
    (store : gmap string (list Tag)) : list event :=
  snd (run os argv (init store)).

(** Some regular file listed under the search directories [ds] has the
    content of the reference file. *)
Definition has_identical_file (fs : node) (reference : string)
    (ds : list string) : Prop :=
  exists file data,
    In (SFile file) (itinerary (tree_os fs) ds) /\
    resolve fs reference = Some (File data) /\
    resolve fs file = Some (File data).

(** The path [reference] leads through the directory [d]: [d] is a
    directory and, as spelled, its names begin the names of [reference]. *)
Definition lies_under (fs : node) (reference d : string) : Prop :=
  tree_isdir fs d = true /\
  exists rel, components reference = components d ++ rel.

(** The run ends with status 1 and the reference file tagged "Duplicate". *)
Definition reports_duplicate (fs : node) (args : Namespace)
    (store : gmap string (list Tag)) : Prop :=
  run_result (tree_os fs) (Parsed args) store = Exit 1 /\
  tags_of (run_state (tree_os fs) (Parsed args) store)
          (ns_reference_file args) = [Duplicate].

(** A walk of the supplied directories lists an entry that cannot be
    stat'ed. *)
Definition yields_unstatable (os : OS) (ds : list string) : Prop :=
  exists file, In (SFile file) (itinerary os ds) /\ stat_size os file = None.

(** The run ends with an exception and has applied no tag. *)
Definition raises_untagged (os : OS) (argv : parse_result)
    (store : gmap string (list Tag)) : Prop :=
  (exists e, run_result os argv store = Raise e) /\
  forall tag file, ~ In (EAdd tag file) (run_trace os argv store).

(** A directory that lists a copy of [a.txt] before a dangling link. *)
Definition fs_copy_first : node :=
  Dir [("a.txt", File (bytes "hello"));
       ("dirD", Dir [("x.txt", File (bytes "hello")); ("broken", Dangling)])].

(** ** Paths and walks on examples *)

Example join_plain : os_path_join "dirA" "x.txt" = "dirA/x.txt".
Proof. reflexivity. Qed.

Example join_after_separator : os_path_join "dirA/" "x.txt" = "dirA/x.txt".
Proof. reflexivity. Qed.

Example join_to_empty : os_path_join "" "x.txt" = "x.txt".
Proof. reflexivity. Qed.

Example join_absolute : os_path_join "dirA" "/x.txt" = "/x.txt".
Proof. reflexivity. Qed.

Example components_skip : components "./dirA//sub/x.txt" = ["dirA"; "sub"; "x.txt"].
Proof. reflexivity. Qed.

Example trailing_separator_after_file : tree_isfile fs_ex "a.txt/" = false.
Proof. reflexivity. Qed.

Example trailing_separator_after_directory : tree_isdir fs_ex "dirA/" = true.
Proof. reflexivity. Qed.

Example dot_and_absolute :
  tree_isfile fs_ex "./a.txt" = true /\ tree_isfile fs_ex "/dirA//sub/x.txt" = true.
Proof. split; reflexivity. Qed.

Example through_parent :
  tree_isfile fs_ex "dirB/../a.txt" = true /\ tree_isfile fs_ex "a.txt/.." = false.
Proof. split; reflexivity. Qed.

Example walk_dirA :
  tree_walk fs_ex "dirA" =
    [("dirA", ["sub"], ["y.txt"; "z"]); ("dirA/sub", [], ["x.txt"])].
Proof. reflexivity. Qed.

Example walk_of_nothing : tree_walk fs_ex "missing" = [].
Proof. reflexivity. Qed.

Example itinerary_dirA :
  itinerary (tree_os fs_ex) ["dirA"] =
    [SDir "dirA"; SList "dirA"; SFile "dirA/y.txt"; SFile "dirA/z";
     SList "dirA/sub"; SFile "dirA/sub/x.txt"].
Proof. reflexivity. Qed.

(** ** Laws of the control-flow monad *)

(** Expose the primitive calls so that a statement run on a known state
    reduces by computation. *)
Ltac unfold_calls :=
  unfold os_path_isfile, os_path_isdir, os_stat_st_size, filecmp_cmp,
    self_reference_file, self_directories, set_ref_size,
    macos_tags_remove_all, macos_tags_add, print, print_help,
    bind, emit, get, put, ret, raise, sys_exit;
  simpl.

Lemma bind_assoc {A B C} (m : M A) (k : A -> M B) (h : B -> M C) (s : state) :
  bind (bind m k) h s = bind m (fun a => bind (k a) h) s.
Proof.
  unfold bind.
  destruct (m s) as [[[a | c | e] s1] t1]; try reflexivity.
  destruct (k a s1) as [[[b | c | e] s2] t2]; try reflexivity.
  destruct (h b s2) as [[r s3] t3].
  by rewrite app_assoc.
Qed.

Lemma bind_ext {A B} (m1 m2 : M A) (k1 k2 : A -> M B) (s : state) :
  m1 s = m2 s ->
  (forall a s', k1 a s' = k2 a s') ->
  bind m1 k1 s = bind m2 k2 s.
Proof.
  intros Hm Hk. unfold bind. rewrite Hm.
  destruct (m2 s) as [[[a | c | e] s1] t1]; try reflexivity.
  by rewrite Hk.
Qed.

Lemma for_app {A} (xs ys : list A) (body : A -> M unit) (s : state) :
  for_ (xs ++ ys) body s = (for_ xs body >> for_ ys body) s.
Proof.
  revert s. induction xs as [| x xs IH]; intros s; simpl.
  - unfold bind, ret. by destruct (for_ ys body s) as [[r s'] t].
  - rewrite bind_assoc. apply bind_ext; [reflexivity | intros [] s'; apply IH].
Qed.

Lemma for_ext {A} (xs : list A) (body1 body2 : A -> M unit) (s : state) :
  (forall x s', body1 x s' = body2 x s') ->
  for_ xs body1 s = for_ xs body2 s.
Proof.
  intros H. revert s. induction xs as [| x xs IH]; intros s; simpl; [reflexivity |].
  apply bind_ext; [apply H | intros _ s'; apply IH].
Qed.

Lemma for_map {A B} (g : A -> B) (xs : list A) (body : B -> M unit) (s : state) :
  for_ (map g xs) body s = for_ xs (fun x => body (g x)) s.
Proof.
  revert s. induction xs as [| x xs IH]; intros s; simpl; [reflexivity |].
  apply bind_ext; [reflexivity | intros _ s'; apply IH].
Qed.

(** ** The nested loops follow the itinerary *)

Section TraversalFacts.

Variable os : OS.

Lemma visit_triple_steps triple s :
  visit_triple os triple s = for_ (triple_steps triple) (do_step os) s.
Proof.
  destruct triple as [[root sub] files]. simpl.
  apply bind_ext; [reflexivity | intros _ s'].
  by rewrite for_map.
Qed.

Lemma walk_steps (w : list (string * list string * list string)) s :
  for_ w (visit_triple os) s = for_ (flat_map triple_steps w) (do_step os) s.
Proof.
  revert s. induction w as [| triple w IH]; intros s; [reflexivity |].
  cbn [flat_map for_]. rewrite for_app.
  apply bind_ext; [apply visit_triple_steps | intros _ s'; apply IH].
Qed.

Lemma scan_directory_steps d s :
  scan_directory os d s = for_ (directory_steps os d) (do_step os) s.
Proof.
  unfold scan_directory, directory_steps. cbn [for_].
  apply bind_ext; [reflexivity | intros _ s'; apply walk_steps].
Qed.

Lemma loops_follow_itinerary ds s :
  for_ ds (scan_directory os) s = for_ (itinerary os ds) (do_step os) s.
Proof.
  revert s. induction ds as [| d ds IH]; intros s; [reflexivity |].
  unfold itinerary. cbn [flat_map for_]. rewrite for_app.
  apply bind_ext; [apply scan_directory_steps | intros _ s'; apply IH].
Qed.

End TraversalFacts.

(** ** The loops compute [scan] *)

Section ScanFacts.

Variable os : OS.
Variable reference : string.
Variable size : Z.

Local Abbreviation verdict_of := (step_verdict os reference size).
Local Abbreviation trace_of := (step_trace os reference size).
Local Abbreviation scan_of := (scan os reference size).

Lemma do_step_spec st s :
  reference_file s = Some reference ->
  ref_size s = size ->
  do_step os st s =
    match verdict_of st with
    | None => (Ret tt, s, trace_of st)
    | Some v =>
        let '(r, s', t') := after_scan reference s v in
        (r, s', trace_of st ++ t')
    end.
Proof.
  destruct s as [ds rf rs vb tg]. simpl. intros -> ->.
  destruct st as [d | root | file]; simpl.
  - unfold check_directory. unfold_calls.
    destruct (isdir os d); reflexivity.
  - reflexivity.
  - unfold check_file. unfold_calls.
    destruct (stat_size os file) as [n |]; simpl; [| reflexivity].
    destruct (n =? size); simpl; [| reflexivity].
    destruct (filecmp os reference file) as [[] |]; simpl; try reflexivity.
    destruct vb; reflexivity.
Qed.

Lemma step_verdict_stops st :
  verdict_of st <> Some NoDuplicateFound.
Proof.
  destruct st as [d | root | file]; simpl; try discriminate.
  - destruct (isdir os d); discriminate.
  - destruct (stat_size os file) as [n |]; [| discriminate].
    destruct (n =? size); [| discriminate].
    destruct (filecmp os reference file) as [[] |]; discriminate.
Qed.

Lemma for_steps steps s :
  reference_file s = Some reference ->
  ref_size s = size ->
  for_ steps (do_step os) s =
    let '(t, v) := scan_of steps in
    let '(r, s', t') := after_scan reference s v in
    (r, s', t ++ t').
Proof.
  intros Hr Hs. induction steps as [| st steps IH]; [reflexivity |].
  cbn [for_ scan]. unfold bind at 1. rewrite (do_step_spec st s Hr Hs).
  pose proof (step_verdict_stops st) as Hstop.
  destruct (verdict_of st) as [v |].
  - destruct v; [congruence | reflexivity ..].
  - rewrite IH. destruct (scan_of steps) as [t v].
    destruct (after_scan reference s v) as [[r s'] t'].
    by rewrite app_assoc.
Qed.

(** Steps that pass quietly only add their questions to the trace. *)
Lemma scan_quiet_prefix pre rest :
  Forall (fun st => quiet os reference size st = true) pre ->
  scan_of (pre ++ rest) =
    (flat_map trace_of pre ++ fst (scan_of rest), snd (scan_of rest)).
Proof.
  induction 1 as [| st pre Hq _ IH]; simpl.
  - by destruct (scan_of rest).
  - unfold quiet in Hq. destruct (verdict_of st); [discriminate |].
    rewrite IH. simpl. by rewrite app_assoc.
Qed.

(** The first step with a verdict ends the scan. *)
Lemma scan_stops_at pre st post v :
  Forall (fun st => quiet os reference size st = true) pre ->
  verdict_of st = Some v ->
  scan_of (pre ++ st :: post) = (flat_map trace_of pre ++ trace_of st, v).
Proof.
  intros Hq Hv. rewrite (scan_quiet_prefix _ _ Hq). cbn [scan]. by rewrite Hv.
Qed.

Lemma scan_all_quiet steps :
  Forall (fun st => quiet os reference size st = true) steps ->
  scan_of steps = (flat_map trace_of steps, NoDuplicateFound).
Proof.
  intros H. rewrite <- (app_nil_r steps) at 1.
  rewrite (scan_quiet_prefix _ _ H). simpl. by rewrite app_nil_r.
Qed.

(** Past harmless steps, a match is still found: at the step itself or at
    an earlier candidate. *)
Lemma scan_harmless_prefix pre file post :
  Forall (fun st => harmless os reference size st = true) pre ->
  verdict_of (SFile file) = Some (DuplicateFound file) ->
  exists c, snd (scan_of (pre ++ SFile file :: post)) = DuplicateFound c.
Proof.
  intros H Hm. induction H as [| st pre Hh _ IH].
  - exists file. cbn [app scan]. by rewrite Hm.
  - cbn [app scan]. unfold harmless in Hh.
    destruct (verdict_of st) as [[] |]; try discriminate.
    + by eexists.
    + destruct IH as [c IH]. exists c.
      destruct (scan_of (pre ++ SFile file :: post)); by simpl in *.
Qed.

(** No step prints, and no step touches a tag: printing and tagging happen
    when the scan has ended. *)
Lemma scan_trace_silent steps :
  Forall (fun e => is_tagging e = false /\ forall line, e <> EPrint line)
         (fst (scan_of steps)).
Proof.
  induction steps as [| st steps IH]; simpl; [constructor |].
  assert (Forall (fun e => is_tagging e = false /\ forall line, e <> EPrint line)
                 (trace_of st)) as Hst.
  { destruct st; simpl; repeat constructor; try discriminate.
    destruct (stat_size os file) as [n |]; [| constructor].
    destruct (n =? size); repeat constructor; discriminate. }
  destruct (verdict_of st); [exact Hst |].
  destruct (scan_of steps). simpl in *. by apply Forall_app.
Qed.

(** Every comparison of the scan is against the reference and on a
    candidate whose size is the reference size. *)
Lemma scan_trace_cmp steps f1 f2 :
  In (ECmp f1 f2) (fst (scan_of steps)) ->
  f1 = reference /\ stat_size os f2 = Some size.
Proof.
  induction steps as [| st steps IH]; simpl; [tauto |].
  assert (In (ECmp f1 f2) (trace_of st) ->
          f1 = reference /\ stat_size os f2 = Some size) as Hst.
  { destruct st; simpl; try (intros [? | []]; discriminate).
    intros [? | H]; [discriminate |].
    destruct (stat_size os file) as [n |] eqn:E; [| destruct H].
    destruct (n =? size) eqn:En; [| destruct H].
    destruct H as [H | []]. inversion H; subst.
    apply Z.eqb_eq in En. by subst. }
  destruct (verdict_of st); [exact Hst |].
  destruct (scan_of steps). simpl in *.
  rewrite in_app_iff. tauto.
Qed.

End ScanFacts.

(** ** Every run, case by case *)

Section RunFacts.

Variable os : OS.

Local Arguments for_ : simpl never.

Lemma run_parser_exit code store :
  run os (ParserExit code) (init store) = (Exit code, init store, [EParserExit]).
Proof. reflexivity. Qed.

Lemma run_no_directory reference vb store :
  run os (Parsed (mkNamespace None reference vb)) (init store) =
    (Raise TypeError, mkState None (Some reference) 0 vb store, []).
Proof. reflexivity. Qed.

Lemma run_empty_directories reference vb store :
  run os (Parsed (mkNamespace (Some []) reference vb)) (init store) =
    (Exit 2, mkState (Some []) (Some reference) 0 vb store, [EPrintHelp]).
Proof. reflexivity. Qed.

Lemma run_not_file ds reference vb store :
  ds <> [] ->
  isfile os reference = false ->
  run os (Parsed (mkNamespace (Some ds) reference vb)) (init store) =
    (Exit 2, mkState (Some ds) (Some reference) 0 vb store,
     [EIsFile reference; EPrint (missing_message reference)]).
Proof.
  intros Hds Hf. unfold run, parse_args, validate_args. unfold_calls.
  rewrite bool_decide_false by (by destruct ds).
  simpl. rewrite Hf. reflexivity.
Qed.

Lemma run_stat_fails ds reference vb store :
  ds <> [] ->
  isfile os reference = true ->
  stat_size os reference = None ->
  run os (Parsed (mkNamespace (Some ds) reference vb)) (init store) =
    (Raise (OSError reference), mkState (Some ds) (Some reference) 0 vb store,
     [EIsFile reference; EStat reference]).
Proof.
  intros Hds Hf Hs. unfold run, parse_args, validate_args. unfold_calls.
  rewrite bool_decide_false by (by destruct ds).
  simpl. rewrite Hf. simpl. rewrite Hs. reflexivity.
Qed.

Lemma run_empty ds reference vb store :
  ds <> [] ->
  isfile os reference = true ->
  stat_size os reference = Some 0 ->
  run os (Parsed (mkNamespace (Some ds) reference vb)) (init store) =
    (Exit 2, mkState (Some ds) (Some reference) 0 vb store,
     [EIsFile reference; EStat reference; EPrint (empty_message reference)]).
Proof.
  intros Hds Hf Hs. unfold run, parse_args, validate_args. unfold_calls.
  rewrite bool_decide_false by (by destruct ds).
  simpl. rewrite Hf. simpl. rewrite Hs. reflexivity.
Qed.

Lemma run_validated ds reference vb store n :
  ds <> [] ->
  isfile os reference = true ->
  stat_size os reference = Some n ->
  n <> 0 ->
  run os (Parsed (mkNamespace (Some ds) reference vb)) (init store) =
    let '(t, v) := scan os reference n (itinerary os ds) in
    let '(r, s', t') := conclude ds reference n vb store v in
    (r, s', validated_prefix reference ++ t ++ t').
Proof.
  intros Hds Hf Hs Hn. unfold run, parse_args, validate_args. unfold_calls.
  rewrite bool_decide_false by (by destruct ds).
  simpl. rewrite Hf. simpl. rewrite Hs. simpl.
  apply Z.eqb_neq in Hn. rewrite Hn. simpl. rewrite Hs. simpl.
  rewrite loops_follow_itinerary.
  rewrite (for_steps os reference n) by reflexivity.
  destruct (scan os reference n (itinerary os ds)) as [t v].
  destruct v; simpl; unfold tags_of; simpl.
  - rewrite app_nil_r, lookup_insert_eq, insert_insert_eq. reflexivity.
  - rewrite lookup_insert_eq, insert_insert_eq. simpl.
    destruct vb; reflexivity.
  - reflexivity.
  - rewrite app_nil_r. reflexivity.
Qed.

End RunFacts.


(** ** The tree as an operating system *)

Section TreeScanFacts.

Variable fs : node.

Lemma tree_identical_matches reference file data :
  resolve fs reference = Some (File data) ->
  resolve fs file = Some (File data) ->
  step_verdict (tree_os fs) reference (Z.of_nat (length data)) (SFile file) =
    Some (DuplicateFound file).
Proof.
  intros Hr Hf. simpl. unfold tree_stat_size, tree_filecmp. rewrite Hr, Hf.
  rewrite Z.eqb_refl. by rewrite bool_decide_true.
Qed.

End TreeScanFacts.

Section ItineraryFacts.

Variable os : OS.

Lemma itinerary_app ds1 ds2 :
  itinerary os (ds1 ++ ds2) = itinerary os ds1 ++ itinerary os ds2.
Proof. apply flat_map_app. Qed.

Lemma itinerary_at_directory ds1 d ds2 :
  itinerary os (ds1 ++ d :: ds2) =
    itinerary os ds1 ++
    SDir d :: (flat_map triple_steps (walk os d) ++ itinerary os ds2).
Proof. by rewrite itinerary_app. Qed.

Lemma itinerary_directory d ds : In (SDir d) (itinerary os ds) -> In d ds.
Proof.
  intros H. apply in_flat_map in H as (d' & Hd' & [H | H]).
  - by injection H as <-.
  - apply in_flat_map in H as ([[root sub] files] & _ & [H | H]); [discriminate |].
    apply in_map_iff in H as (f & H & _). discriminate.
Qed.

Lemma itinerary_nonempty ds : itinerary os ds <> [] -> ds <> [].
Proof. by intros H ->. Qed.

End ItineraryFacts.

(** * The claims *)

(** C3: when no [--directory] option is given, the specification wants the
    help text and exit status 2.  The code does not get there: [argparse]
    leaves [args.directory] at [None], [len(self.directories)] raises
    [TypeError] before [print_help] is reached, nothing is printed by the
    program and the interpreter ends the process with status 1. *)
Theorem no_directory_option_raises os reference vb store :
  run os (Parsed (mkNamespace None reference vb)) (init store) =
    (Raise TypeError, mkState None (Some reference) 0 vb store, []) /\
  exit_status (run_result os (Parsed (mkNamespace None reference vb)) store) = 1 /\
  ~ In EPrintHelp (run_trace os (Parsed (mkNamespace None reference vb)) store).
Proof.
  unfold run_result, run_trace. rewrite run_no_directory. simpl. tauto.
Qed.

(** C7: once directories are supplied, a reference path that is not a
    regular file gives the message naming it and status 2 without its size
    being read; a regular file of size 0 gives the message naming it and
    status 2.  The traces show the order: [isfile] first, then [stat]. *)
Theorem reference_checks_in_order os ds reference vb store :
  ds <> [] ->
  (isfile os reference = false ->
   run os (Parsed (mkNamespace (Some ds) reference vb)) (init store) =
     (Exit 2, mkState (Some ds) (Some reference) 0 vb store,
      [EIsFile reference;
       EPrint ("Reference file " +:+ reference +:+ " does not exist")])) /\
  (isfile os reference = true ->
   stat_size os reference = Some 0 ->
   run os (Parsed (mkNamespace (Some ds) reference vb)) (init store) =
     (Exit 2, mkState (Some ds) (Some reference) 0 vb store,
      [EIsFile reference; EStat reference;
       EPrint ("Reference file " +:+ reference +:+ " is empty")])).
Proof.
  intros Hds. split.
  - intros Hf. by apply run_not_file.
  - intros Hf Hs. by apply run_empty.
Qed.

Lemma reference_checks_in_order_witness :
  run (tree_os fs_ex) (Parsed (mkNamespace (Some ["dirA"]) "nothere.txt" false))
      (init ∅) =
    (Exit 2, mkState (Some ["dirA"]) (Some "nothere.txt") 0 false ∅,
     [EIsFile "nothere.txt";
      EPrint "Reference file nothere.txt does not exist"]) /\
  run (tree_os fs_ex) (Parsed (mkNamespace (Some ["dirA"]) "empty.txt" false))
      (init ∅) =
    (Exit 2, mkState (Some ["dirA"]) (Some "empty.txt") 0 false ∅,
     [EIsFile "empty.txt"; EStat "empty.txt";
      EPrint "Reference file empty.txt is empty"]).
Proof.
  split.
  - apply (reference_checks_in_order (tree_os fs_ex) ["dirA"] "nothere.txt" false ∅);
      [discriminate | reflexivity].
  - apply (reference_checks_in_order (tree_os fs_ex) ["dirA"] "empty.txt" false ∅);
      [discriminate | reflexivity | reflexivity].
Defined.

(** C6: a run that ends with status 2 has not touched a tag and has not
    looked at any search directory: its events are the parser's exit, the
    help text, the [isfile] and [stat] of the reference file and the error
    message, and the tag store is the one the run started with.  The same
    holds for the run without any [--directory] option, which ends in
    [validate_args] too (with the exception of C3 instead of status 2). *)
Theorem validation_error_touches_nothing os argv store :
  run_result os argv store = Exit 2 \/
  (exists reference vb, argv = Parsed (mkNamespace None reference vb)) ->
  tags (run_state os argv store) = store /\
  Forall (fun e => is_tagging e = false /\ touches_directory e = false)
         (run_trace os argv store) /\
  (forall p, In (EStat p) (run_trace os argv store) ->
             reference_file (run_state os argv store) = Some p).
Proof.
  unfold run_result, run_state, run_trace.
  intros [Hexit | (reference & vb & ->)].
  2: { rewrite run_no_directory. simpl. repeat split; [constructor | tauto]. }
  revert Hexit.
  destruct argv as [code | [[ds |] reference vb]].
  - rewrite run_parser_exit. simpl. intros _.
    repeat split; [repeat constructor |]. intros p [Hp | []]. discriminate.
  - destruct (decide (ds = [])) as [-> | Hds].
    { rewrite run_empty_directories. simpl. intros _.
      repeat split; [repeat constructor |]. intros p [Hp | []]. discriminate. }
    destruct (isfile os reference) eqn:Hf.
    + destruct (stat_size os reference) as [n |] eqn:Hs.
      * destruct (decide (n = 0)) as [-> | Hn].
        -- rewrite run_empty by done. simpl. intros _.
           repeat split; [repeat constructor |].
           intros p [Hp | [Hp | [Hp | []]]]; congruence.
        -- rewrite (run_validated os ds reference vb store n) by done.
           destruct (scan os reference n (itinerary os ds)) as [t v].
           destruct v; simpl; discriminate.
      * rewrite run_stat_fails by done. simpl. discriminate.
    + rewrite run_not_file by done. simpl. intros _.
      repeat split; [repeat constructor |].
      intros p [Hp | [Hp | []]]; discriminate.
  - rewrite run_no_directory. simpl. discriminate.
Qed.

Lemma validation_error_touches_nothing_witness :
  tags (run_state (tree_os fs_ex)
          (Parsed (mkNamespace (Some ["dirA"]) "empty.txt" true))
          {["empty.txt" := [Duplicate; Unique]]}) =
    {["empty.txt" := [Duplicate; Unique]]}.
Proof.
  apply (validation_error_touches_nothing (tree_os fs_ex)
           (Parsed (mkNamespace (Some ["dirA"]) "empty.txt" true))
           {["empty.txt" := [Duplicate; Unique]]}).
  left. reflexivity.
Defined.

(** C2: validation has passed (directories were supplied, the reference
    file is a regular file of size [n], not 0), every supplied directory is
    a directory, and every candidate of the walks is stat'ed and either has
    another size or is compared with the reference file and found
    different.  Then every step of the scan is taken, the reference file
    ends up tagged "Unique" (green) and nothing else, and the run ends with
    status 0. *)
Theorem no_match_tags_unique os ds reference vb store n :
  ds <> [] ->
  isfile os reference = true ->
  stat_size os reference = Some n ->
  n <> 0 ->
  Forall (fun d => isdir os d = true) ds ->
  (forall file, In (SFile file) (itinerary os ds) ->
     exists m, stat_size os file = Some m /\
               (m <> n \/ filecmp os reference file = Some false)) ->
  run os (Parsed (mkNamespace (Some ds) reference vb)) (init store) =
    (Exit 0,
     mkState (Some ds) (Some reference) n vb
             (<[reference := [mkTag "Unique" GREEN]]> store),
     validated_prefix reference ++
     flat_map (step_trace os reference n) (itinerary os ds) ++
     [EAdd (mkTag "Unique" GREEN) reference]).
Proof.
  intros Hds Hf Hs Hn Hdirs Hfiles.
  rewrite (run_validated _ ds reference vb store _ Hds Hf Hs Hn).
  rewrite scan_all_quiet; [reflexivity |].
  apply List.Forall_forall. intros [d | root | file] Hst.
  - apply itinerary_directory in Hst.
    rewrite List.Forall_forall in Hdirs. unfold quiet. cbn [step_verdict].
    by rewrite (Hdirs d Hst).
  - reflexivity.
  - destruct (Hfiles file Hst) as (m & Hm & Hdiff).
    unfold quiet. cbn [step_verdict]. rewrite Hm.
    destruct (Z.eqb_spec m n) as [-> | Hne]; [| reflexivity].
    destruct Hdiff as [Hdiff | Hdiff]; [congruence | by rewrite Hdiff].
Qed.

Lemma no_match_tags_unique_witness :
  run (tree_os fs_ex) (Parsed (mkNamespace (Some ["dirB"]) "a.txt" true)) (init ∅) =
    (Exit 0,
     mkState (Some ["dirB"]) (Some "a.txt") 5 true {["a.txt" := [Unique]]},
     [EIsFile "a.txt"; EStat "a.txt"; ERemoveAll "a.txt"; EStat "a.txt";
      EIsDir "dirB"; EScanDir "dirB";
      EStat "dirB/y.txt"; ECmp "a.txt" "dirB/y.txt"; EStat "dirB/n";
      EAdd Unique "a.txt"]).
Proof.
  apply (no_match_tags_unique (tree_os fs_ex) ["dirB"] "a.txt" true ∅ 5).
  - discriminate.
  - reflexivity.
  - reflexivity.
  - discriminate.
  - repeat constructor.
  - intros file Hin. vm_compute in Hin.
    destruct Hin as [Hin | [Hin | [Hin | [Hin | []]]]]; try discriminate;
      injection Hin as <-.
    + exists 5. split; [reflexivity | right; reflexivity].
    + exists 2. split; [reflexivity | left; discriminate].
Defined.

(** C4: the scan reaches a supplied directory [d] that is not a directory
    (every step through the directories before it passed quietly).  The
    run prints the message naming [d] and ends with status 1; the events
    stop there, so neither the rest of the list nor anything under [d] is
    examined, and after the clearing no tag is attached. *)
Theorem missing_directory_stops_scan os ds1 d ds2 reference vb store n :
  isfile os reference = true ->
  stat_size os reference = Some n ->
  n <> 0 ->
  Forall (fun st => quiet os reference n st = true) (itinerary os ds1) ->
  isdir os d = false ->
  run os (Parsed (mkNamespace (Some (ds1 ++ d :: ds2)) reference vb)) (init store) =
    (Exit 1,
     mkState (Some (ds1 ++ d :: ds2)) (Some reference) n vb
             (<[reference := []]> store),
     validated_prefix reference ++
     flat_map (step_trace os reference n) (itinerary os ds1) ++
     [EIsDir d; EPrint ("Directory " +:+ d +:+ " does not exist")]) /\
  forall tag file,
    ~ In (EAdd tag file)
         (run_trace os (Parsed (mkNamespace (Some (ds1 ++ d :: ds2)) reference vb))
                    store).
Proof.
  intros Hf Hs Hn Hq Hd.
  assert (ds1 ++ d :: ds2 <> []) as Hds by (by destruct ds1).
  assert (run os (Parsed (mkNamespace (Some (ds1 ++ d :: ds2)) reference vb))
              (init store) =
          (Exit 1,
           mkState (Some (ds1 ++ d :: ds2)) (Some reference) n vb
                   (<[reference := []]> store),
           validated_prefix reference ++
           flat_map (step_trace os reference n) (itinerary os ds1) ++
           [EIsDir d; EPrint ("Directory " +:+ d +:+ " does not exist")])) as Hrun.
  { rewrite (run_validated _ _ reference vb store _ Hds Hf Hs Hn).
    rewrite itinerary_at_directory.
    rewrite (scan_stops_at _ _ _ _ (SDir d) _ (DirectoryError d) Hq)
      by (simpl; by rewrite Hd).
    simpl. by rewrite <- !app_assoc. }
  split; [exact Hrun |].
  unfold run_trace. rewrite Hrun. simpl. intros tag file Hin.
  destruct Hin as [Hin | [Hin | [Hin | [Hin | Hin]]]]; try discriminate.
  apply in_app_iff in Hin as [Hin | [Hin | [Hin | []]]]; try discriminate.
  pose proof (scan_trace_silent os reference n (itinerary os ds1)) as Hsil.
  rewrite (scan_all_quiet _ _ _ _ Hq) in Hsil. simpl in Hsil.
  rewrite List.Forall_forall in Hsil. by destruct (Hsil _ Hin).
Qed.

Lemma missing_directory_stops_scan_witness :
  run (tree_os fs_ex)
      (Parsed (mkNamespace (Some ["dirB"; "missing"; "dirA"]) "a.txt" true))
      (init ∅) =
    (Exit 1,
     mkState (Some ["dirB"; "missing"; "dirA"]) (Some "a.txt") 5 true
             {["a.txt" := []]},
     [EIsFile "a.txt"; EStat "a.txt"; ERemoveAll "a.txt"; EStat "a.txt";
      EIsDir "dirB"; EScanDir "dirB";
      EStat "dirB/y.txt"; ECmp "a.txt" "dirB/y.txt"; EStat "dirB/n";
      EIsDir "missing"; EPrint "Directory missing does not exist"]).
Proof.
  apply (missing_directory_stops_scan (tree_os fs_ex) ["dirB"] "missing" ["dirA"]
           "a.txt" true ∅ 5).
  - reflexivity.
  - reflexivity.
  - discriminate.
  - vm_compute. repeat constructor.
  - reflexivity.
Defined.

(** C10: the scan reaches a candidate that cannot be stat'ed (every step
    before it passed quietly).  The [os.stat] of line 118 raises, nothing
    catches it: the run ends with the exception instead of an outcome of
    the scan (status 1 from the interpreter), the last event is that
    [stat], and the reference file, cleared at the start, carries no tag. *)
Theorem unstatable_candidate_raises os ds reference vb store n pre file post :
  ds <> [] ->
  isfile os reference = true ->
  stat_size os reference = Some n ->
  n <> 0 ->
  itinerary os ds = pre ++ SFile file :: post ->
  Forall (fun st => quiet os reference n st = true) pre ->
  stat_size os file = None ->
  run os (Parsed (mkNamespace (Some ds) reference vb)) (init store) =
    (Raise (OSError file),
     mkState (Some ds) (Some reference) n vb (<[reference := []]> store),
     validated_prefix reference ++
     flat_map (step_trace os reference n) pre ++ [EStat file]) /\
  tags_of (run_state os (Parsed (mkNamespace (Some ds) reference vb)) store)
          reference = [].
Proof.
  intros Hds Hf Hs Hn Hit Hq Hfile.
  assert (run os (Parsed (mkNamespace (Some ds) reference vb)) (init store) =
          (Raise (OSError file),
           mkState (Some ds) (Some reference) n vb (<[reference := []]> store),
           validated_prefix reference ++
           flat_map (step_trace os reference n) pre ++ [EStat file])) as Hrun.
  { rewrite (run_validated _ _ reference vb store _ Hds Hf Hs Hn), Hit.
    rewrite (scan_stops_at _ _ _ _ (SFile file) _ (Crashed (OSError file)) Hq)
      by (simpl; by rewrite Hfile).
    simpl. rewrite Hfile. by rewrite app_nil_r. }
  split; [exact Hrun |].
  unfold run_state, tags_of. rewrite Hrun. simpl. by rewrite lookup_insert_eq.
Qed.

Lemma unstatable_candidate_raises_witness :
  run (tree_os fs_ex) (Parsed (mkNamespace (Some ["dirB"; "dirC"]) "a.txt" true))
      (init ∅) =
    (Raise (OSError "dirC/broken"),
     mkState (Some ["dirB"; "dirC"]) (Some "a.txt") 5 true {["a.txt" := []]},
     [EIsFile "a.txt"; EStat "a.txt"; ERemoveAll "a.txt"; EStat "a.txt";
      EIsDir "dirB"; EScanDir "dirB";
      EStat "dirB/y.txt"; ECmp "a.txt" "dirB/y.txt"; EStat "dirB/n";
      EIsDir "dirC"; EScanDir "dirC"; EStat "dirC/broken"]).
Proof.
  apply (unstatable_candidate_raises (tree_os fs_ex) ["dirB"; "dirC"] "a.txt" true ∅ 5
           [SDir "dirB"; SList "dirB"; SFile "dirB/y.txt"; SFile "dirB/n";
            SDir "dirC"; SList "dirC"]
           "dirC/broken" [SFile "dirC/x.txt"]).
  - discriminate.
  - reflexivity.
  - reflexivity.
  - discriminate.
  - reflexivity.
  - vm_compute. repeat constructor.
  - reflexivity.
Defined.

(** C10 as stated fails: the walk of [dirD] lists the copy [x.txt] and
    then the dangling link [broken]; the run stops at the copy, tags the
    reference file "Duplicate" and leaves with [sys.exit(1)], and the
    unstatable entry is never stat'ed. *)
Lemma copy_listed_before_unstatable_entry :
  yields_unstatable (tree_os fs_copy_first) ["dirD"] /\
  ~ raises_untagged (tree_os fs_copy_first)
      (Parsed (mkNamespace (Some ["dirD"]) "a.txt" false)) ∅ /\
  run (tree_os fs_copy_first) (Parsed (mkNamespace (Some ["dirD"]) "a.txt" false))
      (init ∅) =
    (Exit 1,
     mkState (Some ["dirD"]) (Some "a.txt") 5 false {["a.txt" := [Duplicate]]},
     [EIsFile "a.txt"; EStat "a.txt"; ERemoveAll "a.txt"; EStat "a.txt";
      EIsDir "dirD"; EScanDir "dirD";
      EStat "dirD/x.txt"; ECmp "a.txt" "dirD/x.txt"; EAdd Duplicate "a.txt"]).
Proof.
  split; [| split].
  - exists "dirD/broken". split; [vm_compute; tauto | reflexivity].
  - intros [[e He] _]. vm_compute in He. discriminate.
  - reflexivity.
Qed.

(** The run up to the first candidate that the comparison finds identical,
    shared by the statements about matches. *)
Lemma run_to_first_match os ds reference vb store n pre file post :
  isfile os reference = true ->
  stat_size os reference = Some n ->
  n <> 0 ->
  itinerary os ds = pre ++ SFile file :: post ->
  Forall (fun st => quiet os reference n st = true) pre ->
  stat_size os file = Some n ->
  filecmp os reference file = Some true ->
  run os (Parsed (mkNamespace (Some ds) reference vb)) (init store) =
    (Exit 1,
     mkState (Some ds) (Some reference) n vb
             (<[reference := [mkTag "Duplicate" RED]]> store),
     validated_prefix reference ++
     flat_map (step_trace os reference n) pre ++
     [EStat file; ECmp reference file; EAdd (mkTag "Duplicate" RED) reference] ++
     (if vb
      then [EPrint ("File " +:+ file +:+ " is identical to " +:+ reference)]
      else [])).
Proof.
  intros Hf Hs Hn Hit Hq Hsize Hcmp.
  assert (ds <> []) as Hds.
  { apply (itinerary_nonempty os). rewrite Hit. by destruct pre. }
  rewrite (run_validated _ ds reference vb store _ Hds Hf Hs Hn), Hit.
  rewrite (scan_stops_at _ _ _ _ (SFile file) _ (DuplicateFound file) Hq)
    by (cbn [step_verdict]; by rewrite Hsize, Z.eqb_refl, Hcmp).
  cbn [conclude step_trace]. rewrite Hsize, Z.eqb_refl.
  by rewrite <- !app_assoc.
Qed.

(** C1, as the code has it: validation has passed (the reference file is a
    regular file of size [n], not 0) and the scan reaches a candidate of
    that size which [filecmp.cmp] finds identical to the reference file,
    every step before it having passed quietly: the search directories
    before it are directories, and the candidates before it are stat'ed
    and either have another size or are compared, without an exception,
    and found different.  Then the run stops at this candidate: the events
    end with its [stat], its comparison, the "Duplicate" (red) tag and,
    when verbose, the message naming the candidate and the reference
    file; nothing after it on the itinerary is examined; the status
    is 1. *)
Theorem first_match_stops_scan os ds reference vb store n pre file post :
  isfile os reference = true ->
  stat_size os reference = Some n ->
  n <> 0 ->
  itinerary os ds = pre ++ SFile file :: post ->
  Forall (fun st => quiet os reference n st = true) pre ->
  stat_size os file = Some n ->
  filecmp os reference file = Some true ->
  run os (Parsed (mkNamespace (Some ds) reference vb)) (init store) =
    (Exit 1,
     mkState (Some ds) (Some reference) n vb
             (<[reference := [mkTag "Duplicate" RED]]> store),
     validated_prefix reference ++
     flat_map (step_trace os reference n) pre ++
     [EStat file; ECmp reference file; EAdd (mkTag "Duplicate" RED) reference] ++
     (if vb
      then [EPrint ("File " +:+ file +:+ " is identical to " +:+ reference)]
      else [])).
Proof. apply run_to_first_match. Qed.

Lemma first_match_stops_scan_witness :
  run (tree_os fs_ex)
      (Parsed (mkNamespace (Some ["dirB"; "dirA"; "dirC"]) "a.txt" true))
      (init ∅) =
    (Exit 1,
     mkState (Some ["dirB"; "dirA"; "dirC"]) (Some "a.txt") 5 true
             {["a.txt" := [Duplicate]]},
     [EIsFile "a.txt"; EStat "a.txt"; ERemoveAll "a.txt"; EStat "a.txt";
      EIsDir "dirB"; EScanDir "dirB";
      EStat "dirB/y.txt"; ECmp "a.txt" "dirB/y.txt"; EStat "dirB/n";
      EIsDir "dirA"; EScanDir "dirA";
      EStat "dirA/y.txt"; ECmp "a.txt" "dirA/y.txt"; EStat "dirA/z";
      EScanDir "dirA/sub";
      EStat "dirA/sub/x.txt"; ECmp "a.txt" "dirA/sub/x.txt";
      EAdd Duplicate "a.txt";
      EPrint "File dirA/sub/x.txt is identical to a.txt"]).
Proof.
  apply (first_match_stops_scan (tree_os fs_ex) ["dirB"; "dirA"; "dirC"] "a.txt"
           true ∅ 5
           [SDir "dirB"; SList "dirB"; SFile "dirB/y.txt"; SFile "dirB/n";
            SDir "dirA"; SList "dirA"; SFile "dirA/y.txt"; SFile "dirA/z";
            SList "dirA/sub"]
           "dirA/sub/x.txt"
           [SDir "dirC"; SList "dirC"; SFile "dirC/broken"; SFile "dirC/x.txt"]).
  - reflexivity.
  - reflexivity.
  - discriminate.
  - reflexivity.
  - vm_compute. repeat constructor.
  - reflexivity.
  - reflexivity.
Defined.

(** C1 as stated fails: with [-d missing -d dirA], [dirA/sub/x.txt] has the
    content of [a.txt], yet the run ends at the missing directory and
    [a.txt] is not tagged "Duplicate". *)
Lemma duplicate_behind_missing_directory :
  has_identical_file fs_ex "a.txt" ["missing"; "dirA"] /\
  ~ reports_duplicate fs_ex (mkNamespace (Some ["missing"; "dirA"]) "a.txt" true) ∅.
Proof.
  split.
  - exists "dirA/sub/x.txt", (bytes "hello").
    split; [vm_compute; tauto | split; reflexivity].
  - intros [_ Htags]. vm_compute in Htags. discriminate.
Qed.

(** Case analysis shared by the statements about every run: the events of
    a run are those of a failed validation, or the validated prefix, the
    questions of the scan, and the conclusion. *)
Lemma run_trace_cases os argv store :
  (run_trace os argv store = [EParserExit] \/
   run_trace os argv store = [] \/
   run_trace os argv store = [EPrintHelp] \/
   exists reference line,
     reference_file (run_state os argv store) = Some reference /\
     (run_trace os argv store = [EIsFile reference; EPrint line] \/
      run_trace os argv store = [EIsFile reference; EStat reference] \/
      run_trace os argv store = [EIsFile reference; EStat reference; EPrint line])) \/
  exists ds reference vb n,
    argv = Parsed (mkNamespace (Some ds) reference vb) /\
    ds <> [] /\ isfile os reference = true /\
    stat_size os reference = Some n /\ n <> 0.
Proof.
  unfold run_trace, run_state.
  destruct argv as [code | [[ds |] reference vb]].
  - left. left. by rewrite run_parser_exit.
  - destruct (decide (ds = [])) as [-> | Hds].
    { left. right. right. left. by rewrite run_empty_directories. }
    destruct (isfile os reference) eqn:Hf.
    + destruct (stat_size os reference) as [n |] eqn:Hs.
      * destruct (decide (n = 0)) as [-> | Hn].
        -- left. do 3 right. exists reference, (empty_message reference).
           rewrite run_empty by done. simpl. tauto.
        -- right. by exists ds, reference, vb, n.
      * left. do 3 right. exists reference, "".
        rewrite run_stat_fails by done. simpl. tauto.
    + left. do 3 right. exists reference, (missing_message reference).
      rewrite run_not_file by done. simpl. tauto.
  - left. right. left. by rewrite run_no_directory.
Qed.

(** C5: whenever a run performs a content comparison, it is between the
    reference file and a candidate whose size [os.stat] reported equal to
    the reference size.  A candidate of another size is never compared. *)
Theorem only_same_size_candidates_compared os argv store f1 f2 :
  In (ECmp f1 f2) (run_trace os argv store) ->
  reference_file (run_state os argv store) = Some f1 /\
  exists n, stat_size os f1 = Some n /\ stat_size os f2 = Some n.
Proof.
  intros Hin.
  destruct (run_trace_cases os argv store)
    as [[E | [E | [E | (reference & line & _ & [E | [E | E]])]]] |
        (ds & reference & vb & n & -> & Hds & Hf & Hs & Hn)];
    try (rewrite E in Hin; simpl in Hin; intuition discriminate).
  unfold run_trace, run_state in *.
  rewrite (run_validated _ ds reference vb store n Hds Hf Hs Hn) in *.
  pose proof (scan_trace_cmp os reference n (itinerary os ds) f1 f2) as Hcmp.
  destruct (scan os reference n (itinerary os ds)) as [t v].
  assert (In (ECmp f1 f2) t) as Ht.
  { destruct v; simpl in Hin;
      destruct Hin as [Hin | [Hin | [Hin | [Hin | Hin]]]]; try discriminate;
      apply in_app_iff in Hin as [Hin | Hin]; try exact Hin.
    - destruct Hin as [Hin | []]. discriminate.
    - destruct Hin as [Hin | Hin]; [discriminate |].
      destruct vb; [destruct Hin as [Hin | []]; discriminate | destruct Hin].
    - destruct Hin as [Hin | []]. discriminate.
    - destruct Hin. }
  destruct (Hcmp Ht) as [-> Hsize].
  split; [by destruct v | by exists n].
Qed.

Lemma only_same_size_candidates_compared_witness :
  reference_file
    (run_state (tree_os fs_ex) (Parsed (mkNamespace (Some ["dirB"]) "a.txt" false)) ∅) =
    Some "a.txt" /\
  exists n, stat_size (tree_os fs_ex) "a.txt" = Some n /\
            stat_size (tree_os fs_ex) "dirB/y.txt" = Some n.
Proof.
  apply (only_same_size_candidates_compared (tree_os fs_ex)
           (Parsed (mkNamespace (Some ["dirB"]) "a.txt" false)) ∅
           "a.txt" "dirB/y.txt").
  vm_compute. tauto.
Defined.

Lemma filter_tagging_silent (t : list event) :
  Forall (fun e => is_tagging e = false /\ forall line, e <> EPrint line) t ->
  List.filter is_tagging t = [] /\ forall line, ~ In (EPrint line) t.
Proof.
  induction 1 as [| e t [He Hp] _ [IH1 IH2]]; simpl; [tauto |].
  rewrite He. split; [exact IH1 |].
  intros line [Hl | Hl]; [by apply (Hp line) | by apply (IH2 line)].
Qed.

Lemma filter_tagging_app (t1 t2 : list event) :
  List.filter is_tagging t1 = [] ->
  List.filter is_tagging (t1 ++ t2) = List.filter is_tagging t2.
Proof. intros H. by rewrite List.filter_app, H. Qed.

(** C8: in a run that passes validation the first events are the two
    checks of the reference file, then the clearing of its tags, once;
    among the events after it there is no second clearing and at most one
    tagging: "Duplicate" with status 1, or "Unique" with status 0, or none
    at all.  A run that printed the directory error applied none.  The
    reference file never ends up with both tags. *)
Theorem tags_cleared_once_then_at_most_one os ds reference vb store n :
  ds <> [] ->
  isfile os reference = true ->
  stat_size os reference = Some n ->
  n <> 0 ->
  let argv := Parsed (mkNamespace (Some ds) reference vb) in
  let final := tags_of (run_state os argv store) reference in
  exists scan_events,
    run_trace os argv store =
      [EIsFile reference; EStat reference] ++ ERemoveAll reference :: scan_events /\
    ((List.filter is_tagging scan_events = [EAdd Duplicate reference] /\
      final = [Duplicate] /\ run_result os argv store = Exit 1) \/
     (List.filter is_tagging scan_events = [EAdd Unique reference] /\
      final = [Unique] /\ run_result os argv store = Exit 0) \/
     (List.filter is_tagging scan_events = [] /\
      final = [] /\ run_result os argv store <> Exit 0)) /\
    (forall d, In (EPrint ("Directory " +:+ d +:+ " does not exist"))
                  (run_trace os argv store) ->
               List.filter is_tagging scan_events = [] /\ final = []) /\
    ~ (Duplicate ∈ final /\ Unique ∈ final).
Proof.
  intros Hds Hf Hs Hn argv final. subst argv final.
  unfold run_trace, run_state, run_result, tags_of.
  rewrite (run_validated _ ds reference vb store n Hds Hf Hs Hn).
  destruct (filter_tagging_silent _
              (scan_trace_silent os reference n (itinerary os ds))) as [Hsil Hnp].
  destruct (scan os reference n (itinerary os ds)) as [t v]. simpl in Hsil, Hnp.
  destruct v as [| file | d | e]; cbn [conclude fst snd tags].
  - exists (EStat reference :: t ++ [EAdd Unique reference]).
    rewrite lookup_insert_eq. cbn [default List.filter is_tagging].
    rewrite (filter_tagging_app _ _ Hsil). repeat split.
    + right. left. by repeat split.
    + simpl in H. destruct H as [H | [H | [H | [H | H]]]]; try discriminate.
      apply in_app_iff in H as [H | [H | []]]; [by apply Hnp in H | discriminate].
    + simpl in H. destruct H as [H | [H | [H | [H | H]]]]; try discriminate.
      apply in_app_iff in H as [H | [H | []]]; [by apply Hnp in H | discriminate].
    + intros [H _]. apply list_elem_of_singleton in H. discriminate.
  - exists (EStat reference :: t ++ EAdd Duplicate reference ::
              (if vb then [EPrint (identical_message file reference)] else [])).
    rewrite lookup_insert_eq. cbn [default List.filter is_tagging].
    rewrite (filter_tagging_app _ _ Hsil).
    assert (forall d, ~ In (EPrint ("Directory " +:+ d +:+ " does not exist"))
              (validated_prefix reference ++ t ++ EAdd Duplicate reference ::
                 (if vb then [EPrint (identical_message file reference)] else [])))
      as Hno.
    { intros d H. simpl in H. destruct H as [H | [H | [H | [H | H]]]]; try discriminate.
      apply in_app_iff in H as [H | [H | H]]; [by apply Hnp in H | discriminate |].
      destruct vb; [| destruct H]. destruct H as [H | []]. discriminate. }
    repeat split.
    + left. by destruct vb.
    + by apply Hno in H.
    + by apply Hno in H.
    + intros [_ H]. apply list_elem_of_singleton in H. discriminate.
  - exists (EStat reference :: t ++ [EPrint (directory_message d)]).
    rewrite lookup_insert_eq. cbn [default List.filter is_tagging].
    rewrite (filter_tagging_app _ _ Hsil). repeat split.
    + right. right. by repeat split.
    + intros [H _]. by apply elem_of_nil in H.
  - exists (EStat reference :: t ++ []).
    rewrite lookup_insert_eq. cbn [default List.filter is_tagging].
    rewrite (filter_tagging_app _ _ Hsil). repeat split.
    + right. right. by repeat split.
    + intros [H _]. by apply elem_of_nil in H.
Qed.

Lemma tags_cleared_once_then_at_most_one_witness :
  ~ (Duplicate ∈ tags_of (run_state (tree_os fs_ex)
                            (Parsed (mkNamespace (Some ["dirA"]) "a.txt" false))
                            {["a.txt" := [Unique]]}) "a.txt" /\
     Unique ∈ tags_of (run_state (tree_os fs_ex)
                         (Parsed (mkNamespace (Some ["dirA"]) "a.txt" false))
                         {["a.txt" := [Unique]]}) "a.txt").
Proof.
  destruct (tags_cleared_once_then_at_most_one (tree_os fs_ex) ["dirA"] "a.txt"
              false {["a.txt" := [Unique]]} 5) as (scan_events & _ & _ & _ & H).
  - discriminate.
  - reflexivity.
  - reflexivity.
  - discriminate.
  - exact H.
Defined.

(** C9, as the code has it: the program has no test that would leave the
    reference file out of the candidates.  Validation has passed, and a
    walk yields a path [file] to the reference file itself (as [os.walk]
    does when the file lies below a supplied directory, unless it lies
    behind a symbolic link to a directory or a directory that cannot be
    listed): [os.stat] reports the size of the reference file for it and
    [filecmp.cmp] finds the file identical to itself.  If the scan gets
    that far (before it, every search directory is a directory and every
    candidate is stat'ed and compared without an exception), the run tags
    the reference file "Duplicate" and ends with status 1; and if nothing
    before it matched (no other copy), the match is the reference file
    against this path to itself. *)
Theorem reference_is_a_candidate os ds reference vb store n pre file post :
  isfile os reference = true ->
  stat_size os reference = Some n ->
  n <> 0 ->
  itinerary os ds = pre ++ SFile file :: post ->
  stat_size os file = stat_size os reference ->
  filecmp os reference file = Some true ->
  let argv := Parsed (mkNamespace (Some ds) reference vb) in
  (Forall (fun st => harmless os reference n st = true) pre ->
   run_result os argv store = Exit 1 /\
   tags_of (run_state os argv store) reference = [Duplicate]) /\
  (Forall (fun st => quiet os reference n st = true) pre ->
   run os argv (init store) =
     (Exit 1,
      mkState (Some ds) (Some reference) n vb
              (<[reference := [Duplicate]]> store),
      validated_prefix reference ++
      flat_map (step_trace os reference n) pre ++
      [EStat file; ECmp reference file; EAdd Duplicate reference] ++
      (if vb
       then [EPrint ("File " +:+ file +:+ " is identical to " +:+ reference)]
       else []))).
Proof.
  intros Hf Hs Hn Hit Hsize Hcmp argv. subst argv. rewrite Hs in Hsize.
  assert (ds <> []) as Hds.
  { apply (itinerary_nonempty os). rewrite Hit. by destruct pre. }
  split.
  - intros Hh. unfold run_result, run_state, tags_of.
    rewrite (run_validated _ ds reference vb store _ Hds Hf Hs Hn), Hit.
    assert (step_verdict os reference n (SFile file) = Some (DuplicateFound file))
      as Hv by (cbn [step_verdict]; by rewrite Hsize, Z.eqb_refl, Hcmp).
    destruct (scan_harmless_prefix os reference n pre file post Hh Hv) as [c Hc].
    destruct (scan os reference n (pre ++ SFile file :: post)) as [t v].
    simpl in Hc. subst v. simpl. by rewrite lookup_insert_eq.
  - intros Hq. by apply (run_to_first_match os ds reference vb store n pre file post).
Qed.

Lemma reference_is_a_candidate_witness :
  run (tree_os fs_ex)
      (Parsed (mkNamespace (Some ["dirB"; "home"]) "home/a.txt" false)) (init ∅) =
    (Exit 1,
     mkState (Some ["dirB"; "home"]) (Some "home/a.txt") 6 false
             {["home/a.txt" := [Duplicate]]},
     [EIsFile "home/a.txt"; EStat "home/a.txt"; ERemoveAll "home/a.txt";
      EStat "home/a.txt";
      EIsDir "dirB"; EScanDir "dirB"; EStat "dirB/y.txt"; EStat "dirB/n";
      EIsDir "home"; EScanDir "home";
      EStat "home/b.txt"; ECmp "home/a.txt" "home/b.txt";
      EStat "home/a.txt"; ECmp "home/a.txt" "home/a.txt";
      EAdd Duplicate "home/a.txt"]).
Proof.
  apply (proj2 (reference_is_a_candidate (tree_os fs_ex) ["dirB"; "home"]
                  "home/a.txt" false ∅ 6
                  [SDir "dirB"; SList "dirB"; SFile "dirB/y.txt"; SFile "dirB/n";
                   SDir "home"; SList "home"; SFile "home/b.txt"]
                  "home/a.txt" []
                  eq_refl eq_refl ltac:(discriminate) eq_refl eq_refl eq_refl)).
  vm_compute. repeat constructor.
Defined.

(** C9 as stated fails: [home/a.txt] lies under the supplied directory
    [home], but with [-d missing -d home] the run ends at the missing
    directory and the reference file is not tagged "Duplicate". *)
Lemma reference_behind_missing_directory :
  In "home" ["missing"; "home"] /\
  lies_under fs_ex "home/a.txt" "home" /\
  tree_isfile fs_ex "home/a.txt" = true /\
  ~ reports_duplicate fs_ex
      (mkNamespace (Some ["missing"; "home"]) "home/a.txt" false) ∅.
Proof.
  split; [right; by left |].
  split; [split; [reflexivity | by exists ["a.txt"]] |].
  split; [reflexivity |].
  intros [_ Htags]. vm_compute in Htags. discriminate.
Qed.

(** * Further properties of the methods *)

(** ** More about [scan] *)

Section ScanVerdicts.

Variable os : OS.
Variable reference : string.
Variable size : Z.

(** The scan ends without a verdict exactly when every step is quiet. *)
Lemma scan_verdict_quiet steps :
  snd (scan os reference size steps) = NoDuplicateFound <->
  Forall (fun st => quiet os reference size st = true) steps.
Proof.
  induction steps as [| st steps IH]; simpl.
  - split; [constructor | reflexivity].
  - pose proof (step_verdict_stops os reference size st) as Hstop.
    rewrite Forall_cons. unfold quiet at 1.
    destruct (step_verdict os reference size st) as [v |].
    + simpl. split; [intros ->; congruence | intros [? _]; discriminate].
    + destruct (scan os reference size steps) as [t v]. simpl in *.
      rewrite <- IH. tauto.
Qed.

(** Steps after the one that ended the scan do not matter. *)
Lemma scan_app_stop a b :
  snd (scan os reference size a) <> NoDuplicateFound ->
  scan os reference size (a ++ b) = scan os reference size a.
Proof.
  induction a as [| st a IH]; simpl; [congruence |].
  destruct (step_verdict os reference size st); [reflexivity |].
  destruct (scan os reference size a) as [t v]. simpl in *.
  intros H. by rewrite (IH H).
Qed.

(** A reported duplicate is a candidate of the itinerary that the
    comparison found equal. *)
Lemma scan_duplicate_found steps c :
  snd (scan os reference size steps) = DuplicateFound c ->
  In (SFile c) steps /\
  step_verdict os reference size (SFile c) = Some (DuplicateFound c).
Proof.
  induction steps as [| st steps IH]; simpl; [discriminate |].
  destruct (step_verdict os reference size st) as [v |] eqn:E.
  - simpl. intros ->.
    assert (st = SFile c) as ->.
    { destruct st as [d | root | file]; simpl in E; try discriminate.
      - destruct (isdir os d); discriminate.
      - destruct (stat_size os file) as [n |]; [| discriminate].
        destruct (n =? size); [| discriminate].
        destruct (filecmp os reference file) as [[] |]; congruence. }
    split; [by left | exact E].
  - destruct (scan os reference size steps) as [t v]. simpl in *.
    intros H. destruct (IH H). split; [by right | done].
Qed.

End ScanVerdicts.

(** On the tree, a candidate the comparison finds equal has the content of
    the reference file. *)
Lemma tree_match_inv fs reference size file :
  step_verdict (tree_os fs) reference size (SFile file) =
    Some (DuplicateFound file) ->
  exists data,
    resolve fs reference = Some (File data) /\
    resolve fs file = Some (File data).
Proof.
  simpl. unfold tree_stat_size, tree_filecmp.
  destruct (resolve fs file) as [[d2 | es2 |] |];
    destruct (resolve fs reference) as [[d1 | es1 |] |];
    simpl; intros H; try discriminate H;
    repeat match type of H with
           | context [?a =? size] => destruct (a =? size)
           end;
    try discriminate H.
  all: try (case_bool_decide; [| discriminate H]; subst; by exists d2).
  all: destruct size as [| q | q]; try discriminate H;
    destruct (4096 =? q)%positive; discriminate H.
Qed.

(** ** [validate_args] *)

(** X1: [validate_args] (lines 84-95) returns to its caller exactly when the
    directories are a non-empty list and the reference path is a regular
    file whose size can be read and is not 0.  It then has asked two
    questions, printed nothing, stored the size in [self.ref_size] and
    left every tag alone. *)
Theorem validate_args_returns_iff os s reference :
  reference_file s = Some reference ->
  (fst (fst (validate_args os s)) = Ret tt <->
   exists ds n,
     directories s = Some ds /\ ds <> [] /\
     isfile os reference = true /\
     stat_size os reference = Some n /\ n <> 0) /\
  (forall ds n,
     directories s = Some ds -> ds <> [] ->
     isfile os reference = true ->
     stat_size os reference = Some n -> n <> 0 ->
     validate_args os s =
       (Ret tt, mkState (Some ds) (Some reference) n (verbose s) (tags s),
        [EIsFile reference; EStat reference])).
Proof.
  destruct s as [dso rf rs vb tg]. simpl. intros ->.
  unfold validate_args. unfold_calls. split.
  - destruct dso as [[| d ds] |]; simpl.
    + split; [discriminate | intros (ds & n & [= <-] & Hne & _); congruence].
    + destruct (isfile os reference) eqn:Hf; simpl.
      * destruct (stat_size os reference) as [n |] eqn:Hs; simpl.
        -- destruct (n =? 0) eqn:Hn; simpl.
           ++ apply Z.eqb_eq in Hn.
              split; [discriminate |].
              intros (ds' & n' & _ & _ & _ & [= <-] & Hne). congruence.
           ++ apply Z.eqb_neq in Hn. split; [| reflexivity].
              intros _. by exists (d :: ds), n.
        -- split; [discriminate |].
           intros (ds' & n' & _ & _ & _ & Hn' & _). discriminate.
      * split; [discriminate |].
        intros (ds' & n' & _ & _ & Hf' & _). discriminate.
    + split; [discriminate | intros (ds & n & Hd & _); discriminate].
  - intros ds n [= ->] Hds Hf Hs Hn.
    destruct ds as [| d ds]; [congruence |]. simpl.
    rewrite Hf. simpl. rewrite Hs. simpl.
    apply Z.eqb_neq in Hn. by rewrite Hn.
Qed.

Lemma validate_args_returns_iff_witness :
  validate_args (tree_os fs_ex) (mkState (Some ["dirA"]) (Some "a.txt") 0 true ∅) =
    (Ret tt, mkState (Some ["dirA"]) (Some "a.txt") 5 true ∅,
     [EIsFile "a.txt"; EStat "a.txt"]).
Proof.
  apply (proj2 (validate_args_returns_iff (tree_os fs_ex)
                  (mkState (Some ["dirA"]) (Some "a.txt") 0 true ∅) "a.txt"
                  eq_refl) ["dirA"] 5);
    [reflexivity | discriminate | reflexivity | reflexivity | discriminate].
Defined.

(** ** [run] *)

(** When a run ends with status 0, shared by the statements below. *)
Lemma run_exit_zero_iff os dso reference vb store :
  (run_result os (Parsed (mkNamespace dso reference vb)) store = Exit 0 <->
   exists ds n,
     dso = Some ds /\ ds <> [] /\
     isfile os reference = true /\
     stat_size os reference = Some n /\ n <> 0 /\
     Forall (fun st => quiet os reference n st = true) (itinerary os ds)) /\
  (run_result os (Parsed (mkNamespace dso reference vb)) store = Exit 0 ->
   tags_of (run_state os (Parsed (mkNamespace dso reference vb)) store)
           reference = [Unique]).
Proof.
  unfold run_result, run_state, tags_of.
  destruct dso as [ds |]; [| rewrite run_no_directory; simpl; split;
    [split; [discriminate | intros (? & ? & ? & _); discriminate] | discriminate]].
  destruct (decide (ds = [])) as [-> | Hds].
  { rewrite run_empty_directories. simpl. split; [| discriminate].
    split; [discriminate | intros (? & ? & [= <-] & ? & _); congruence]. }
  destruct (isfile os reference) eqn:Hf.
  2: { rewrite run_not_file by done. simpl. split; [| discriminate].
       split; [discriminate | intros (? & ? & _ & _ & ? & _); discriminate]. }
  destruct (stat_size os reference) as [n |] eqn:Hs.
  2: { rewrite run_stat_fails by done. simpl. split; [| discriminate].
       split; [discriminate | intros (? & ? & _ & _ & _ & ? & _); discriminate]. }
  destruct (decide (n = 0)) as [-> | Hn].
  { rewrite run_empty by done. simpl. split; [| discriminate].
    split; [discriminate | intros (? & ? & _ & _ & _ & [= <-] & ? & _); congruence]. }
  rewrite (run_validated os ds reference vb store n Hds Hf Hs Hn).
  pose proof (scan_verdict_quiet os reference n (itinerary os ds)) as Hq.
  destruct (scan os reference n (itinerary os ds)) as [t v]. simpl in Hq.
  destruct v; simpl; (split; [split |]); try discriminate.
  - intros _. exists ds, n. repeat split; try done. by apply Hq.
  - reflexivity.
  - intros _. by rewrite lookup_insert_eq.
  - intros (ds' & n' & [= <-] & _ & _ & [= <-] & _ & Hall).
    apply Hq in Hall. discriminate.
  - intros (ds' & n' & [= <-] & _ & _ & [= <-] & _ & Hall).
    apply Hq in Hall. discriminate.
  - intros (ds' & n' & [= <-] & _ & _ & [= <-] & _ & Hall).
    apply Hq in Hall. discriminate.
Qed.

(** X2: [run] ends with status 0 in two cases only: [argparse] itself
    left with status 0 (help or version), or a namespace was parsed,
    validation passed and every step of the scan was quiet: every
    supplied directory is a directory and every candidate of every walk
    can be stat'ed and either has another size or compares different.  In
    the second case the reference file carries the tag "Unique" and
    nothing else. *)
Theorem exit_zero_iff_all_quiet os argv store :
  (run_result os argv store = Exit 0 <->
   argv = ParserExit 0 \/
   exists ds reference vb n,
     argv = Parsed (mkNamespace (Some ds) reference vb) /\ ds <> [] /\
     isfile os reference = true /\
     stat_size os reference = Some n /\ n <> 0 /\
     Forall (fun st => quiet os reference n st = true) (itinerary os ds)) /\
  (forall args,
     argv = Parsed args ->
     run_result os argv store = Exit 0 ->
     tags_of (run_state os argv store) (ns_reference_file args) = [Unique]).
Proof.
  destruct argv as [code | [dso reference vb]].
  - unfold run_result. rewrite run_parser_exit. simpl. split; [| discriminate].
    split.
    + intros [= ->]. by left.
    + intros [[= ->] | (? & ? & ? & ? & ? & _)]; [reflexivity | discriminate].
  - destruct (run_exit_zero_iff os dso reference vb store) as [Hiff Htags].
    split.
    + rewrite Hiff. split.
      * intros (ds & n & -> & H). right. by exists ds, reference, vb, n.
      * intros [? | (ds & r & v & n & [= -> -> ->] & H)]; [discriminate |].
        by exists ds, n.
    + intros args [= <-]. exact Htags.
Qed.


(** The shape of any run as a function of the tag store it starts from:
    the result and the events do not depend on the store, and the store
    comes back unchanged or with the tags of the reference file replaced
    by a list that does not depend on the store either. *)
Lemma run_shape os argv :
  exists (r : result unit) (t : list event)
         (final : gmap string (list Tag) -> state)
         (upd : option (string * list Tag)),
    (forall store,
       run os argv (init store) = (r, final store, t) /\
       tags (final store) =
         match upd with
         | None => store
         | Some (file, ts) => <[file := ts]> store
         end) /\
    (forall file ts, upd = Some (file, ts) ->
       exists dso vb, argv = Parsed (mkNamespace dso file vb)).
Proof.
  destruct argv as [code | [[ds |] reference vb]].
  - exists (Exit code), [EParserExit], init, None. split; [| discriminate].
    intros store. by rewrite run_parser_exit.
  - destruct (decide (ds = [])) as [-> | Hds].
    { exists (Exit 2), [EPrintHelp],
        (fun store => mkState (Some []) (Some reference) 0 vb store), None.
      split; [| discriminate]. intros store. by rewrite run_empty_directories. }
    destruct (isfile os reference) eqn:Hf.
    2: { exists (Exit 2), [EIsFile reference; EPrint (missing_message reference)],
           (fun store => mkState (Some ds) (Some reference) 0 vb store), None.
         split; [| discriminate]. intros store. by rewrite run_not_file. }
    destruct (stat_size os reference) as [n |] eqn:Hs.
    2: { exists (Raise (OSError reference)), [EIsFile reference; EStat reference],
           (fun store => mkState (Some ds) (Some reference) 0 vb store), None.
         split; [| discriminate]. intros store. by rewrite run_stat_fails. }
    destruct (decide (n = 0)) as [-> | Hn].
    { exists (Exit 2),
        [EIsFile reference; EStat reference; EPrint (empty_message reference)],
        (fun store => mkState (Some ds) (Some reference) 0 vb store), None.
      split; [| discriminate]. intros store. by rewrite run_empty. }
    destruct (scan os reference n (itinerary os ds)) as [t v] eqn:Escan.
    exists (fst (fst (conclude ds reference n vb ∅ v))),
      (validated_prefix reference ++ t ++ snd (conclude ds reference n vb ∅ v)),
      (fun store => snd (fst (conclude ds reference n vb store v))),
      (Some (reference,
             match v with
             | NoDuplicateFound => [Unique]
             | DuplicateFound _ => [Duplicate]
             | _ => []
             end)).
    split.
    + intros store.
      rewrite (run_validated os ds reference vb store n Hds Hf Hs Hn), Escan.
      by destruct v.
    + intros file ts [= <- _]. by exists (Some ds), vb.
  - exists (Raise TypeError), [],
      (fun store => mkState None (Some reference) 0 vb store), None.
    split; [| discriminate]. intros store. by rewrite run_no_directory.
Qed.

(** X3: [run] never reads a tag: its exit status and its events are the same
    whatever tags the files carry at the start.  Running it a second time
    on the tags the first run left (nothing else having changed) leaves
    the same tags again. *)
Theorem rerun_leaves_same_tags os argv store1 store2 :
  run_result os argv store1 = run_result os argv store2 /\
  run_trace os argv store1 = run_trace os argv store2 /\
  tags (run_state os argv (tags (run_state os argv store1))) =
    tags (run_state os argv store1).
Proof.
  destruct (run_shape os argv) as (r & t & final & upd & Hrun & _).
  unfold run_result, run_trace, run_state.
  destruct (Hrun store1) as [E1 T1]. destruct (Hrun store2) as [E2 _].
  destruct (Hrun (tags (final store1))) as [E3 T3].
  rewrite E1, E2. simpl. rewrite E3. simpl. rewrite T3, T1.
  repeat split. destruct upd as [[file ts] |]; [| reflexivity].
  by rewrite insert_insert_eq.
Qed.

(** No step of the scan calls [print]. *)
Lemma scan_trace_no_print os reference size steps :
  List.filter is_print (fst (scan os reference size steps)) = [].
Proof.
  induction steps as [| st steps IH]; simpl; [reflexivity |].
  assert (List.filter is_print (step_trace os reference size st) = []) as Hst.
  { destruct st as [d | root | file]; simpl; try reflexivity.
    destruct (stat_size os file) as [n |]; [| reflexivity].
    by destruct (n =? size). }
  destruct (step_verdict os reference size st); [exact Hst |].
  destruct (scan os reference size steps) as [t v]. simpl in *.
  by rewrite List.filter_app, Hst, IH.
Qed.

(** X5: The [--verbose] flag changes neither the exit status nor any tag; it
    adds at most one line at the very end, the one about the identical
    file, and only when the "Duplicate" tag was applied. *)
Theorem verbose_only_prints os dso reference store :
  let loud := Parsed (mkNamespace dso reference true) in
  let calm := Parsed (mkNamespace dso reference false) in
  run_result os loud store = run_result os calm store /\
  tags (run_state os loud store) = tags (run_state os calm store) /\
  exists extra,
    run_trace os loud store = run_trace os calm store ++ extra /\
    (extra = [] \/
     exists file,
       extra = [EPrint ("File " +:+ file +:+ " is identical to " +:+ reference)] /\
       In (EAdd Duplicate reference) (run_trace os calm store)).
Proof.
  intros loud calm. subst loud calm. unfold run_result, run_state, run_trace.
  destruct dso as [ds |].
  2: { rewrite !run_no_directory. simpl. repeat split. exists []. by split; [| left]. }
  destruct (decide (ds = [])) as [-> | Hds].
  { rewrite !run_empty_directories. simpl. repeat split. exists []. by split; [| left]. }
  destruct (isfile os reference) eqn:Hf.
  2: { rewrite !run_not_file by done. simpl. repeat split. exists []. by split; [| left]. }
  destruct (stat_size os reference) as [n |] eqn:Hs.
  2: { rewrite !run_stat_fails by done. simpl. repeat split. exists []. by split; [| left]. }
  destruct (decide (n = 0)) as [-> | Hn].
  { rewrite !run_empty by done. simpl. repeat split. exists []. by split; [| left]. }
  rewrite (run_validated os ds reference true store n Hds Hf Hs Hn).
  rewrite (run_validated os ds reference false store n Hds Hf Hs Hn).
  destruct (scan os reference n (itinerary os ds)) as [t v].
  destruct v as [| file | d | e]; simpl; repeat split.
  - exists []. split; [by rewrite app_nil_r | by left].
  - exists [EPrint (identical_message file reference)]. split.
    + rewrite <- List.app_assoc. reflexivity.
    + right. exists file. split; [reflexivity |].
      do 4 right. apply in_app_iff. right. by left.
  - exists []. split; [by rewrite app_nil_r | by left].
  - exists []. split; [by rewrite !app_nil_r | by left].
Qed.

(** Runs that end before the scan have a short literal trace. *)
Ltac early_run_prints :=
  simpl; repeat split; try lia; try discriminate;
  try (let H := fresh in intros ? ? _ H; simpl in H; intuition discriminate).

(** The calls of [print] and [print_help] in any run of the model. *)
Lemma run_print_calls os argv store :
  (length (List.filter is_print (run_trace os argv store)) <= 1)%nat /\
  (run_result os argv store = Exit 0 ->
   List.filter is_print (run_trace os argv store) = []) /\
  (forall dso reference,
     argv = Parsed (mkNamespace dso reference false) ->
     In (EAdd Duplicate reference) (run_trace os argv store) ->
     List.filter is_print (run_trace os argv store) = []).
Proof.
  unfold run_result, run_trace.
  destruct argv as [code | [[ds |] reference vb]].
  - rewrite run_parser_exit. early_run_prints.
  - destruct (decide (ds = [])) as [-> | Hds].
    { rewrite run_empty_directories. early_run_prints. }
    destruct (isfile os reference) eqn:Hf.
    2: { rewrite run_not_file by done. early_run_prints. }
    destruct (stat_size os reference) as [n |] eqn:Hs.
    2: { rewrite run_stat_fails by done. early_run_prints. }
    destruct (decide (n = 0)) as [-> | Hn].
    { rewrite run_empty by done. early_run_prints. }
    rewrite (run_validated os ds reference vb store n Hds Hf Hs Hn).
    pose proof (scan_trace_no_print os reference n (itinerary os ds)) as Hnp.
    pose proof (scan_trace_silent os reference n (itinerary os ds)) as Hsil.
    destruct (scan os reference n (itinerary os ds)) as [t v]. simpl in Hnp, Hsil.
    assert (forall tag file, ~ In (EAdd tag file) t) as Hnoadd.
    { intros tag file Hin. rewrite List.Forall_forall in Hsil.
      by destruct (Hsil _ Hin). }
    destruct v as [| file | d | e]; simpl; rewrite List.filter_app, Hnp; simpl.
    + repeat split. lia.
    + destruct vb; simpl; repeat split; try lia; try discriminate.
    + repeat split; try lia; try discriminate.
      all: intros ? ? _ [H | [H | [H | [H | H]]]]; try discriminate.
      all: apply in_app_iff in H as [H | H];
        [by apply Hnoadd in H | simpl in H; intuition discriminate].
    + repeat split; try lia; try discriminate.
      all: intros ? ? _ [H | [H | [H | [H | H]]]]; try discriminate.
      all: apply in_app_iff in H as [H | H];
        [by apply Hnoadd in H | simpl in H; intuition discriminate].
  - rewrite run_no_directory. early_run_prints.
Qed.

(** X6: in a run that got its namespace from [argparse], the program
    calls [print] or [print_help] at most once; it makes no such call when
    the run ends with status 0, and none when it applies the "Duplicate"
    tag without [--verbose]. *)
Theorem run_prints_at_most_once os args store :
  (length (List.filter is_print (run_trace os (Parsed args) store)) <= 1)%nat /\
  (run_result os (Parsed args) store = Exit 0 ->
   List.filter is_print (run_trace os (Parsed args) store) = []) /\
  (ns_verbose args = false ->
   In (EAdd Duplicate (ns_reference_file args)) (run_trace os (Parsed args) store) ->
   List.filter is_print (run_trace os (Parsed args) store) = []).
Proof.
  destruct (run_print_calls os (Parsed args) store) as (Hone & Hzero & Hcalm).
  split; [exact Hone |]. split; [exact Hzero |].
  destruct args as [dso reference vb]. simpl. intros -> Hin.
  by apply (Hcalm dso reference).
Qed.

Lemma run_prints_at_most_once_witness :
  List.filter is_print
    (run_trace (tree_os fs_ex) (Parsed (mkNamespace (Some ["dirA"]) "a.txt" false)) ∅) =
    [].
Proof.
  apply (proj2 (proj2 (run_prints_at_most_once (tree_os fs_ex)
                         (mkNamespace (Some ["dirA"]) "a.txt" false) ∅))).
  - reflexivity.
  - vm_compute. tauto.
Defined.


(** X7: Once the run over the directories [ds1] does not end with status 0
    (validation failed, a duplicate was found, a directory was missing, or
    an exception escaped), directories supplied after them change
    nothing: the status, the events and the tags are those of the run over
    [ds1] alone. *)
Theorem later_directories_irrelevant os ds1 ds2 reference vb store :
  ds1 <> [] ->
  run_result os (Parsed (mkNamespace (Some ds1) reference vb)) store <> Exit 0 ->
  run_result os (Parsed (mkNamespace (Some (ds1 ++ ds2)) reference vb)) store =
    run_result os (Parsed (mkNamespace (Some ds1) reference vb)) store /\
  run_trace os (Parsed (mkNamespace (Some (ds1 ++ ds2)) reference vb)) store =
    run_trace os (Parsed (mkNamespace (Some ds1) reference vb)) store /\
  tags (run_state os (Parsed (mkNamespace (Some (ds1 ++ ds2)) reference vb)) store) =
    tags (run_state os (Parsed (mkNamespace (Some ds1) reference vb)) store).
Proof.
  intros Hds1. unfold run_result, run_trace, run_state.
  assert (ds1 ++ ds2 <> []) as Hds by (by destruct ds1).
  destruct (isfile os reference) eqn:Hf.
  2: { by rewrite !run_not_file. }
  destruct (stat_size os reference) as [n |] eqn:Hs.
  2: { by rewrite !run_stat_fails. }
  destruct (decide (n = 0)) as [-> | Hn].
  { by rewrite !run_empty. }
  rewrite (run_validated os ds1 reference vb store n Hds1 Hf Hs Hn).
  rewrite (run_validated os (ds1 ++ ds2) reference vb store n Hds Hf Hs Hn).
  rewrite itinerary_app.
  pose proof (scan_app_stop os reference n (itinerary os ds1) (itinerary os ds2))
    as Hstop.
  destruct (scan os reference n (itinerary os ds1)) as [t v]. simpl in Hstop.
  destruct v as [| file | d | e]; simpl.
  - intros H. by destruct H.
  - intros _. by rewrite Hstop.
  - intros _. by rewrite Hstop.
  - intros _. by rewrite Hstop.
Qed.

Lemma later_directories_irrelevant_witness :
  run_trace (tree_os fs_ex)
    (Parsed (mkNamespace (Some (["dirA"] ++ ["missing"; "dirC"])) "a.txt" false)) ∅ =
  run_trace (tree_os fs_ex) (Parsed (mkNamespace (Some ["dirA"]) "a.txt" false)) ∅.
Proof.
  apply (later_directories_irrelevant (tree_os fs_ex) ["dirA"] ["missing"; "dirC"]
           "a.txt" false ∅); discriminate.
Defined.

(** ** [run] on the tree *)

(** X8: The "Duplicate" tag is never applied without cause: when a run tags
    the reference file "Duplicate", some candidate listed by the walks of
    the supplied directories is a regular file with the very content of
    the reference file. *)
Theorem duplicate_tag_has_a_cause fs ds reference vb store :
  In (EAdd Duplicate reference)
     (run_trace (tree_os fs) (Parsed (mkNamespace (Some ds) reference vb)) store) ->
  has_identical_file fs reference ds.
Proof.
  unfold run_trace.
  destruct (decide (ds = [])) as [-> | Hds].
  { rewrite run_empty_directories. simpl. intuition discriminate. }
  destruct (isfile (tree_os fs) reference) eqn:Hf.
  2: { rewrite run_not_file by done. simpl. intuition discriminate. }
  destruct (stat_size (tree_os fs) reference) as [n |] eqn:Hs.
  2: { rewrite run_stat_fails by done. simpl. intuition discriminate. }
  destruct (decide (n = 0)) as [-> | Hn].
  { rewrite run_empty by done. simpl. intuition discriminate. }
  rewrite (run_validated _ ds reference vb store n Hds Hf Hs Hn).
  pose proof (scan_duplicate_found (tree_os fs) reference n (itinerary (tree_os fs) ds))
    as Hfound.
  pose proof (scan_trace_silent (tree_os fs) reference n (itinerary (tree_os fs) ds))
    as Hsil.
  destruct (scan (tree_os fs) reference n (itinerary (tree_os fs) ds)) as [t v].
  simpl in Hfound, Hsil.
  assert (~ In (EAdd Duplicate reference) t) as Hnoadd.
  { intros Hin. rewrite List.Forall_forall in Hsil. by destruct (Hsil _ Hin). }
  destruct v as [| file | d | e]; simpl.
  - intros [H | [H | [H | [H | H]]]]; try discriminate.
    apply in_app_iff in H as [H | [H | []]]; [by destruct Hnoadd | discriminate].
  - intros _. destruct (Hfound file eq_refl) as [Hin Hv].
    destruct (tree_match_inv fs reference n file Hv) as (data & Hr & Hfile).
    by exists file, data.
  - intros [H | [H | [H | [H | H]]]]; try discriminate.
    apply in_app_iff in H as [H | [H | []]]; [by destruct Hnoadd | discriminate].
  - intros [H | [H | [H | [H | H]]]]; try discriminate.
    apply in_app_iff in H as [H | []]. by destruct Hnoadd.
Qed.

Lemma duplicate_tag_has_a_cause_witness :
  has_identical_file fs_ex "a.txt" ["dirB"; "dirA"].
Proof.
  apply (duplicate_tag_has_a_cause fs_ex ["dirB"; "dirA"] "a.txt" false ∅).
  vm_compute. tauto.
Defined.

(** X9: status 0 is never given while a walk lists a copy: when a run
    that got its namespace from [argparse] ends with status 0, every
    supplied directory is a directory and no candidate listed by the walks
    of the supplied directories is a regular file with the content of the
    reference file. *)
Theorem status_zero_means_no_copy fs ds reference vb store :
  run_result (tree_os fs) (Parsed (mkNamespace (Some ds) reference vb)) store =
    Exit 0 ->
  Forall (fun d => tree_isdir fs d = true) ds /\
  ~ has_identical_file fs reference ds.
Proof.
  intros Hzero.
  apply (proj1 (proj1 (run_exit_zero_iff _ _ _ _ _))) in Hzero
    as (ds' & n & [= <-] & Hds & Hf & Hs & Hn & Hq).
  rewrite List.Forall_forall in Hq. split.
  - apply List.Forall_forall. intros d Hd.
    assert (In (SDir d) (itinerary (tree_os fs) ds)) as Hin.
    { apply in_flat_map. exists d. split; [exact Hd | by left]. }
    specialize (Hq _ Hin). unfold quiet in Hq. simpl in Hq.
    by destruct (tree_isdir fs d).
  - intros (file & data & Hin & Hr & Hfile).
    specialize (Hq _ Hin). unfold quiet in Hq.
    assert (n = Z.of_nat (length data)) as ->.
    { simpl in Hs. unfold tree_stat_size in Hs. rewrite Hr in Hs. congruence. }
    by rewrite (tree_identical_matches fs reference file data Hr Hfile) in Hq.
Qed.

Lemma status_zero_means_no_copy_witness :
  ~ has_identical_file fs_ex "a.txt" ["dirB"].
Proof.
  apply (status_zero_means_no_copy fs_ex ["dirB"] "a.txt" false ∅).
  reflexivity.
Defined.

(** ** [mark_as_duplicate] *)

(** X11: The static method [mark_as_duplicate] (lines 97-102) and the branch of
    [run] taken at a match (lines 121-125) do the same thing when
    [--verbose] is off: after the [stat] and the comparison of the
    candidate, the run is exactly [mark_as_duplicate] applied to the
    reference file, which adds the tag and leaves with status 1. *)
Theorem match_branch_is_mark_as_duplicate os s reference file :
  reference_file s = Some reference ->
  verbose s = false ->
  step_verdict os reference (ref_size s) (SFile file) = Some (DuplicateFound file) ->
  check_file os file s =
    (fst (fst (mark_as_duplicate reference s)),
     snd (fst (mark_as_duplicate reference s)),
     [EStat file; ECmp reference file] ++ snd (mark_as_duplicate reference s)) /\
  fst (fst (mark_as_duplicate reference s)) = Exit 1.
Proof.
  destruct s as [dso rf rs vb tg]. simpl. intros -> -> Hv.
  unfold check_file, mark_as_duplicate. unfold_calls.
  destruct (stat_size os file) as [n |]; simpl; [| discriminate].
  destruct (n =? rs); simpl; [| discriminate].
  destruct (filecmp os reference file) as [[] |]; simpl; try discriminate.
  split; reflexivity.
Qed.

Lemma match_branch_is_mark_as_duplicate_witness :
  check_file (tree_os fs_ex) "dirA/sub/x.txt"
    (mkState (Some ["dirA"]) (Some "a.txt") 5 false ∅) =
    (Exit 1, mkState (Some ["dirA"]) (Some "a.txt") 5 false {["a.txt" := [Duplicate]]},
     [EStat "dirA/sub/x.txt"; ECmp "a.txt" "dirA/sub/x.txt"; EAdd Duplicate "a.txt"]).
Proof.
  etransitivity.
  - apply (proj1 (match_branch_is_mark_as_duplicate (tree_os fs_ex)
                    (mkState (Some ["dirA"]) (Some "a.txt") 5 false ∅)
                    "a.txt" "dirA/sub/x.txt" eq_refl eq_refl eq_refl)).
  - vm_compute. reflexivity.
Defined.

(** ** The order of the directories *)

(** Harmless steps leave two ways for the scan to end. *)
Lemma scan_harmless_verdict os reference size steps :
  Forall (fun st => harmless os reference size st = true) steps ->
  snd (scan os reference size steps) = NoDuplicateFound \/
  exists c, snd (scan os reference size steps) = DuplicateFound c.
Proof.
  induction 1 as [| st steps Hh _ IH]; simpl; [by left |].
  unfold harmless in Hh.
  destruct (step_verdict os reference size st) as [[| c | d | e] |];
    try discriminate.
  - right. by exists c.
  - destruct (scan os reference size steps) as [t v]. exact IH.
Qed.

(** X12: When every supplied directory is a directory and no candidate raises,
    the order in which the directories are supplied decides neither the
    exit status nor the tags: a rearranged list gives status 1 and
    "Duplicate" or status 0 and "Unique" just the same.  (Which candidate
    is reported, and the events, may differ.) *)
Theorem directory_order_irrelevant os ds ds' reference vb store n :
  Permutation ds ds' ->
  stat_size os reference = Some n ->
  Forall (fun st => harmless os reference n st = true) (itinerary os ds) ->
  run_result os (Parsed (mkNamespace (Some ds') reference vb)) store =
    run_result os (Parsed (mkNamespace (Some ds) reference vb)) store /\
  tags (run_state os (Parsed (mkNamespace (Some ds') reference vb)) store) =
    tags (run_state os (Parsed (mkNamespace (Some ds) reference vb)) store).
Proof.
  intros Hperm Hs Hh. unfold run_result, run_state.
  destruct (decide (ds = [])) as [-> | Hds].
  { apply Permutation_nil in Hperm as ->. by split. }
  assert (ds' <> []) as Hds'.
  { intros ->. symmetry in Hperm. by apply Permutation_nil in Hperm. }
  destruct (isfile os reference) eqn:Hf.
  2: { by rewrite !run_not_file. }
  destruct (decide (n = 0)) as [-> | Hn].
  { by rewrite !run_empty. }
  rewrite (run_validated os ds reference vb store n Hds Hf Hs Hn).
  rewrite (run_validated os ds' reference vb store n Hds' Hf Hs Hn).
  assert (Permutation (itinerary os ds) (itinerary os ds')) as Hit
    by (by apply Permutation_flat_map).
  assert (Forall (fun st => harmless os reference n st = true) (itinerary os ds'))
    as Hh' by (by rewrite <- Hit).
  pose proof (scan_verdict_quiet os reference n (itinerary os ds)) as Hq.
  pose proof (scan_verdict_quiet os reference n (itinerary os ds')) as Hq'.
  assert (Forall (fun st => quiet os reference n st = true) (itinerary os ds) <->
          Forall (fun st => quiet os reference n st = true) (itinerary os ds'))
    as Hqq by (by rewrite Hit).
  destruct (scan_harmless_verdict os reference n _ Hh) as [Hv | [c Hv]];
    destruct (scan_harmless_verdict os reference n _ Hh') as [Hv' | [c' Hv']];
    destruct (scan os reference n (itinerary os ds)) as [t v];
    destruct (scan os reference n (itinerary os ds')) as [t' v'];
    simpl in *; subst.
  - by split.
  - assert (DuplicateFound c' = NoDuplicateFound) by tauto. discriminate.
  - assert (DuplicateFound c = NoDuplicateFound) by tauto. discriminate.
  - by split.
Qed.

Lemma directory_order_irrelevant_witness :
  run_result (tree_os fs_ex) (Parsed (mkNamespace (Some ["dirA"; "dirB"]) "a.txt" true)) ∅ =
    run_result (tree_os fs_ex) (Parsed (mkNamespace (Some ["dirB"; "dirA"]) "a.txt" true)) ∅ /\
  tags (run_state (tree_os fs_ex)
          (Parsed (mkNamespace (Some ["dirA"; "dirB"]) "a.txt" true)) ∅) =
    tags (run_state (tree_os fs_ex)
            (Parsed (mkNamespace (Some ["dirB"; "dirA"]) "a.txt" true)) ∅).
Proof.
  apply (directory_order_irrelevant (tree_os fs_ex) ["dirB"; "dirA"] ["dirA"; "dirB"]
           "a.txt" true ∅ 5).
  - apply perm_swap.
  - reflexivity.
  - vm_compute. repeat constructor.
Defined.
